(** * Table_combiner: sheet naming, source enumeration and the merge pipeline

    A shallow embedding of [combiner.py].  Python strings are lists of
    characters; a character is a code point below 256 ([ascii]), with
    Python's white-space and lower-case tables restricted to that range.
    Integers are [Z] (lengths, slice bounds) and [N] (the suffix counter).
    The file system, the pandas readers and the output side (the directory
    call and the workbook writer) are a [World] of oracles, each of which
    may answer with an exception; the effects of a run (reader calls, sink
    calls, log records) are collected in a trace by a small
    writer/exception monad. *)

From Stdlib Require Import String Ascii NArith ZArith Lia Bool Arith.
From Stdlib Require Import List Permutation Sorted.
Import ListNotations.

Local Open Scope Z_scope.

(** ** Python strings *)

Definition str : Type := list ascii.

(** A string literal of the source. *)
Definition lit (s : string) : str := list_ascii_of_string s.

(** [len(s)] *)
Definition len (s : str) : Z := Z.of_nat (length s).

Definition char_eqb (a b : ascii) : bool := Ascii.eqb a b.

Fixpoint str_eqb (a b : str) : bool :=
  match a, b with
  | [], [] => true
  | x :: a', y :: b' => char_eqb x y && str_eqb a' b'
  | _, _ => false
  end.

(** [k in seen] for a collection of string keys. *)
Definition mem (k : str) (keys : list str) : bool := existsb (str_eqb k) keys.

(** [str.isspace] on one character, which is also what [\s] matches and
    what [str.strip] removes: TAB..CR, FS..US, space, NEL and NBSP. *)
Definition is_space (c : ascii) : bool :=
  let n := N_of_ascii c in
  (((9 <=? n) && (n <=? 13)) || ((28 <=? n) && (n <=? 32))
   || (n =? 133) || (n =? 160))%N.

(** [str.lower] on one character: A-Z and the Latin-1 capitals
    (U+00C0..U+00DE without the multiplication sign) move up by 32. *)
Definition lower_char (c : ascii) : ascii :=
  let n := N_of_ascii c in
  if (((65 <=? n) && (n <=? 90))
      || ((192 <=? n) && (n <=? 222) && negb (n =? 215)))%N
  then ascii_of_N (n + 32) else c.

(** [s.lower()] *)
Definition lower (s : str) : str := map lower_char s.

(** [s[:k]]; a negative bound counts from the end and never goes below
    the start of the string. *)
Definition slice_to (s : str) (k : Z) : str :=
  if k <? 0 then firstn (Z.to_nat (len s + k)) s else firstn (Z.to_nat k) s.

(** [s[k:]] for a bound that is not negative. *)
Definition slice_from (s : str) (k : Z) : str := skipn (Z.to_nat k) s.

Fixpoint lstrip (s : str) : str :=
  match s with
  | [] => []
  | c :: t => if is_space c then lstrip t else s
  end.

Definition rstrip (s : str) : str := rev (lstrip (rev s)).

(** [s.strip()] *)
Definition strip (s : str) : str := rstrip (lstrip s).

(** The character class of the first pattern of [sanitize_sheet_name]:
    colon, backslash, slash, question mark, star and the square brackets. *)
Definition is_illegal (c : ascii) : bool :=
  let n := N_of_ascii c in
  ((n =? 58) || (n =? 92) || (n =? 47) || (n =? 63) || (n =? 42)
   || (n =? 91) || (n =? 93))%N.

(** [re.sub(r'[:\\/\?\*\[\]]', " ", s)] *)
Definition sub_illegal (s : str) : str :=
  map (fun c => if is_illegal c then " "%char else c) s.

(** [re.sub(r"\s+", " ", s)]: every maximal run of white space becomes
    one space.  [in_run] tells that the previous character was white
    space, so the current run has been replaced already. *)
Fixpoint sub_ws_runs (in_run : bool) (s : str) : str :=
  match s with
  | [] => []
  | c :: t =>
      if is_space c
      then (if in_run then sub_ws_runs true t
            else " "%char :: sub_ws_runs true t)
      else c :: sub_ws_runs false t
  end.

Definition collapse_ws (s : str) : str := sub_ws_runs false s.

(** Decimal digits of [n], least significant first. *)
Fixpoint dec_digits (fuel : nat) (n : N) : str :=
  match fuel with
  | O => []
  | S f =>
      ascii_of_N (48 + n mod 10)
      :: (if (n <? 10)%N then [] else dec_digits f (n / 10)%N)
  end.

(** [str(n)] for an integer that is not negative. *)
Definition str_of_N (n : N) : str :=
  rev (dec_digits (S (N.to_nat (N.log2 n))) n).

(** Comparison of strings, by code point, as [<=] on [str]. *)
Fixpoint str_leb (a b : str) : bool :=
  match a, b with
  | [], _ => true
  | _ :: _, [] => false
  | x :: a', y :: b' =>
      if (N_of_ascii x <? N_of_ascii y)%N then true
      else if (N_of_ascii y <? N_of_ascii x)%N then false
      else str_leb a' b'
  end.

Fixpoint find_last (c : ascii) (s : str) (i acc : Z) : Z :=
  match s with
  | [] => acc
  | x :: t => find_last c t (i + 1) (if char_eqb x c then i else acc)
  end.

(** [s.rfind(c)] for a one-character needle: the last index, or -1. *)
Definition rfind (c : ascii) (s : str) : Z := find_last c s 0 (-1).

Definition startswith (c : ascii) (s : str) : bool :=
  match s with
  | x :: _ => char_eqb x c
  | [] => false
  end.

Definition endswith (c : ascii) (s : str) : bool := startswith c (rev s).

(** [s.split(sep)] for a one-character separator: the pieces between the
    separators, of which there is always at least one. *)
Fixpoint split_char (sep : ascii) (s : str) : list str :=
  match s with
  | [] => [[]]
  | c :: t =>
      if char_eqb c sep then [] :: split_char sep t
      else
        match split_char sep t with
        | [] => [[c]]
        | part :: parts => (c :: part) :: parts
        end
  end.

Definition suffix_after_last_underscore (stem : str) : str :=
  let parts := split_char "_" stem in
  if Z.of_nat (length parts) >? 1 then last parts [] else stem.

(** ** Sheet names *)

Definition MAX_SHEETNAME_LEN : Z := 31.

Definition or_default (s d : str) : str :=
  match s with
  | [] => d
  | _ :: _ => s
  end.

(** [sanitize_sheet_name]: the source strips before it collapses. *)
Definition sanitize_sheet_name (name : str) : str :=
  let name := strip (sub_illegal name) in
  let name := collapse_ws name in
  or_default name (lit "Sheet").

(** The sanitising step in the words of the specification: replace the
    illegal characters, collapse runs of white space, then trim. *)
Definition sanitize_spec (name : str) : str :=
  or_default (strip (collapse_ws (sub_illegal name))) (lit "Sheet").

(** [f"_{idx}"] *)
Definition suffix_of (idx : N) : str := "_"%char :: str_of_N idx.

(** The right-hand side of the assignment in the body of the [while]. *)
Definition next_candidate (base : str) (max_len : Z) (idx : N) : str :=
  let suffix := suffix_of idx in
  if len base + len suffix >? max_len
  then slice_to base (max_len - len suffix) ++ suffix
  else base ++ suffix.

(** The [while candidate.lower() in seen] loop; [None] when the fuel runs
    out before the loop exits. *)
Fixpoint while_seen (fuel : nat) (seen : list str) (base : str)
    (max_len : Z) (candidate : str) (idx : N) : option str :=
  match fuel with
  | O => None
  | S f =>
      if mem (lower candidate) seen
      then while_seen f seen base max_len
             (next_candidate base max_len idx) (idx + 1)%N
      else Some candidate
  end.

(** One turn of the [for raw in names] loop, up to the exit of the
    [while]: the accepted candidate for [raw]. *)
Definition resolve_one (fuel : nat) (seen : list str) (raw : str)
    (max_len : Z) : option str :=
  let base := slice_to (sanitize_sheet_name raw) max_len in
  let candidate := or_default base (lit "Sheet") in
  while_seen fuel seen base max_len candidate 1%N.

(** The [for] loop.  The dict [seen] only ever maps keys to [True] and is
    only read by [in], so it is kept as the list of its keys. *)
Fixpoint uniquify_loop (fuel : nat) (names : list str) (max_len : Z)
    (seen : list str) (result : list str) : option (list str) :=
  match names with
  | [] => Some result
  | raw :: rest =>
      match resolve_one fuel seen raw max_len with
      | None => None
      | Some candidate =>
          uniquify_loop fuel rest max_len
            (lower candidate :: seen) (result ++ [candidate])
      end
  end.

Definition uniquify_fuel (fuel : nat) (names : list str) (max_len : Z)
    : option (list str) :=
  uniquify_loop fuel names max_len [] [].

(** [uniquify_and_truncate]: every [while] loop may take one more turn
    than there are names, which is enough, and more turns change nothing
    ([uniquify_fuel_spec]). *)
Definition uniquify_and_truncate (names : list str) (max_len : Z)
    : list str :=
  match uniquify_fuel (S (length names)) names max_len with
  | Some result => result
  | None => []
  end.

(** ** Paths ([posixpath]) *)

Fixpoint has_non_dot (s : str) : bool :=
  match s with
  | [] => false
  | c :: t => if negb (char_eqb c ".") then true else has_non_dot t
  end.

(** [os.path.splitext]: the extension starts at the last dot of the last
    path component, unless only dots come before it in that component. *)
Definition splitext (p : str) : str * str :=
  let sepIndex := rfind "/" p in
  let dotIndex := rfind "." p in
  if dotIndex >? sepIndex
  then
    if has_non_dot (slice_from (slice_to p dotIndex) (sepIndex + 1))
    then (slice_to p dotIndex, slice_from p dotIndex)
    else (p, [])
  else (p, []).

(** [os.path.join] of two components. *)
Definition path_join (a b : str) : str :=
  if startswith "/" b then b
  else
    match a with
    | [] => b
    | _ :: _ => if endswith "/" a then a ++ b else a ++ "/"%char :: b
    end.

(** [os.path.basename] *)
Definition basename (p : str) : str := slice_from p (rfind "/" p + 1).

Fixpoint lstrip_char (c : ascii) (s : str) : str :=
  match s with
  | [] => []
  | x :: t => if char_eqb x c then lstrip_char c t else s
  end.

(** [os.path.dirname] *)
Definition dirname (p : str) : str :=
  let head := slice_to p (rfind "/" p + 1) in
  match lstrip_char "/" head with
  | [] => head
  | _ :: _ => rev (lstrip_char "/" (rev head))
  end.

Definition EXCEL_EXTS : list str := [lit ".xlsx"; lit ".xls"].
Definition CSV_EXTS : list str := [lit ".csv"; lit ".tsv"; lit ".txt"].

(** ** Tables *)

Inductive cell : Type :=
| CellNA
| CellInt (z : Z)
| CellStr (s : str).

(** A frame has a row index, of which the length is kept, and the
    ordered sequence of its named columns.  A frame can have rows and no
    column. *)
Record DataFrame : Type := Frame {
  df_rows : nat;
  df_columns : list (str * list cell)
}.

(** The frame made of the given columns, with as many rows as its first
    column has cells. *)
Definition mkDataFrame (columns : list (str * list cell)) : DataFrame :=
  Frame
    match columns with
    | [] => O
    | (_, values) :: _ => length values
    end
    columns.

(** [df.shape[1]] and [df.shape[0]] *)
Definition ncols (df : DataFrame) : Z := Z.of_nat (length (df_columns df)).

Definition nrows (df : DataFrame) : Z := Z.of_nat (df_rows df).

(** ** Exceptions, effects and the world *)

Inductive exn : Type :=
| UnicodeDecodeError
| ValueError
| SystemExit (code : Z)
| OtherError (kind : str).

Inductive result (A : Type) : Type :=
| Ok (a : A)
| Raise (e : exn).

Arguments Ok {A} a.
Arguments Raise {A} e.

Inductive encoding : Type := UTF8 | GBK.

Inductive level : Type := INFO | WARNING | ERROR.

Inductive event : Type :=
| EvLog (lvl : level) (msg : str)
| EvReadCsv (path : str) (enc : encoding)
| EvExcelFile (path : str)
| EvReadExcel (path : str) (sheet : str)
| EvMakedirs (path : str)
| EvOpenWriter (path : str)
| EvToExcel (sheet_name : str) (df : DataFrame)
| EvCloseWriter (path : str).

(** What a run can observe of its surroundings: the file system, the
    pandas readers, and the output side.  [os_makedirs] answers
    [os.makedirs(path, exist_ok=True)] for a path that is not empty,
    [pd_ExcelWriter] the opening of the writer, [df_to_excel] one call of
    [df.to_excel] given the sheets handed over before it, and
    [writer_close] the saving of a workbook that holds the given sheets. *)
Record World : Type := World_with_sink {
  abspath : str -> str;
  isdir : str -> bool;
  listdir : str -> list str;
  isfile : str -> bool;
  pd_read_csv : str -> encoding -> result DataFrame;
  pd_ExcelFile : str -> result (list str);
  pd_read_excel : str -> str -> result DataFrame;
  os_makedirs : str -> result unit;
  pd_ExcelWriter : str -> result unit;
  df_to_excel :
    str -> list (str * DataFrame) -> str -> DataFrame -> result unit;
  writer_close : str -> list (str * DataFrame) -> result unit
}.

(** A world whose output side accepts every call put to it. *)
Definition mkWorld (abspath' : str -> str) (isdir' : str -> bool)
    (listdir' : str -> list str) (isfile' : str -> bool)
    (pd_read_csv' : str -> encoding -> result DataFrame)
    (pd_ExcelFile' : str -> result (list str))
    (pd_read_excel' : str -> str -> result DataFrame) : World :=
  World_with_sink abspath' isdir' listdir' isfile' pd_read_csv'
    pd_ExcelFile' pd_read_excel'
    (fun _ => Ok tt) (fun _ => Ok tt) (fun _ _ _ _ => Ok tt)
    (fun _ _ => Ok tt).

(** A computation yields the events it caused, in order, and a value or
    the exception that ended it. *)
Definition M (A : Type) : Type := list event * result A.

Definition ret {A : Type} (a : A) : M A := ([], Ok a).

Definition raise {A : Type} (e : exn) : M A := ([], Raise e).

Definition bind {A B : Type} (m : M A) (k : A -> M B) : M B :=
  match m with
  | (t, Ok a) => let (t', r) := k a in (t ++ t', r)
  | (t, Raise e) => (t, Raise e)
  end.

Notation "x <- m ;; k" := (bind m (fun x => k))
  (at level 61, m at next level, right associativity).
Notation "m ;;; k" := (bind m (fun _ => k))
  (at level 61, right associativity).

Definition emit (e : event) : M unit := ([e], Ok tt).

Definition call {A : Type} (e : event) (r : result A) : M A := ([e], r).

Definition log (lvl : level) (msg : str) : M unit := emit (EvLog lvl msg).

(** [try: m except UnicodeDecodeError: handler] *)
Definition except_decode {A : Type} (m : M A) (handler : M A) : M A :=
  match m with
  | (t, Raise UnicodeDecodeError) => let (t', r) := handler in (t ++ t', r)
  | _ => m
  end.

(** [with ... as writer: body]: the exit action runs however the body
    ends, knowing what the body did; when it raises, its exception is the
    outcome, and otherwise the outcome is the body's. *)
Definition finally {A : Type} (body : M A) (exit : list event -> M unit)
    : M A :=
  let (t, r) := body in
  let (t', r') := exit t in
  (t ++ t',
   match r' with
   | Ok _ => r
   | Raise e => Raise e
   end).

(** The status the process ends with. *)
Definition exit_status (r : result unit) : Z :=
  match r with
  | Ok _ => 0
  | Raise (SystemExit code) => code
  | Raise _ => 1
  end.

(** ** The program *)

(** The [for name in os.listdir(folder)] loop of [list_input_files]. *)
Fixpoint scan_names (w : World) (folder : str) (names : list str)
    (all_files : list str) : list str :=
  match names with
  | [] => all_files
  | name :: rest =>
      let path := path_join folder name in
      if negb (isfile w path) then scan_names w folder rest all_files
      else
        let ext := lower (snd (splitext name)) in
        if mem ext (EXCEL_EXTS ++ CSV_EXTS)
        then scan_names w folder rest (all_files ++ [path])
        else scan_names w folder rest all_files
  end.

Fixpoint insert_by (key : str -> str) (x : str) (l : list str) : list str :=
  match l with
  | [] => [x]
  | y :: l' =>
      if str_leb (key x) (key y) then x :: l else y :: insert_by key x l'
  end.

(** [l.sort(key=key)]: Python's sort is stable, and so is this one; an
    element goes in front of the later elements whose key is equal. *)
Fixpoint sort_by (key : str -> str) (l : list str) : list str :=
  match l with
  | [] => []
  | x :: t => insert_by key x (sort_by key t)
  end.

Definition sort_key (p : str) : str := lower (basename p).

Definition list_input_files (w : World) (folder : str) : list str :=
  sort_by sort_key (scan_names w folder (listdir w folder) []).

Definition read_csv (w : World) (path : str) (enc : encoding)
    : M DataFrame :=
  call (EvReadCsv path enc) (pd_read_csv w path enc).

Definition read_csv_like (w : World) (path : str) : M DataFrame :=
  except_decode
    (read_csv w path UTF8)
    (log WARNING
       (lit "UTF-8 failed for " ++ basename path
        ++ lit ", falling back to GBK.") ;;;
     read_csv w path GBK).

(** The [for sheet in xls.sheet_names] loop. *)
Fixpoint read_sheets (w : World) (path : str) (sheet_names : list str)
    (items : list (str * DataFrame)) : M (list (str * DataFrame)) :=
  match sheet_names with
  | [] => ret items
  | sheet :: rest =>
      df <- call (EvReadExcel path sheet) (pd_read_excel w path sheet) ;;
      read_sheets w path rest (items ++ [(sheet, df)])
  end.

Definition read_excel_all_sheets (w : World) (path : str)
    : M (list (str * DataFrame)) :=
  sheet_names <- call (EvExcelFile path) (pd_ExcelFile w path) ;;
  read_sheets w path sheet_names [].

(** The two lists [collect_tables] appends to. *)
Definition tables : Type := (list DataFrame * list str)%type.

Definition append_entry (acc : tables) (name : str) (df : DataFrame)
    : tables :=
  (fst acc ++ [df], snd acc ++ [name]).

(** The body of the [for path in files] loop. *)
Definition collect_file (w : World) (path : str) (acc : tables)
    : M tables :=
  let fname := basename path in
  let stem := fst (splitext fname) in
  let ext := lower (snd (splitext fname)) in
  if mem ext EXCEL_EXTS then
    sheets <- read_excel_all_sheets w path ;;
    match sheets with
    | [(original_name, df)] =>
        log INFO (lit "[Excel-1] " ++ fname ++ lit " -> sheet '" ++ stem
                  ++ lit "'") ;;;
        ret (append_entry acc stem df)
    | _ =>
        log INFO (lit "[Excel-N] " ++ fname ++ lit " -> "
                  ++ str_of_N (N.of_nat (length sheets))
                  ++ lit " sheets preserved by original names") ;;;
        ret (fold_left (fun a item => append_entry a (fst item) (snd item))
               sheets acc)
    end
  else if mem ext CSV_EXTS then
    df <- read_csv_like w path ;;
    log INFO (lit "[CSV] " ++ fname ++ lit " -> sheet '" ++ stem
              ++ lit "'") ;;;
    ret (append_entry acc stem df)
  else ret acc.

Fixpoint collect_files (w : World) (files : list str) (acc : tables)
    : M tables :=
  match files with
  | [] => ret acc
  | path :: rest =>
      acc' <- collect_file w path acc ;;
      collect_files w rest acc'
  end.

(** The [for raw, final in zip(planned_names, final_names)] loop. *)
Fixpoint log_renames (pairs : list (str * str)) : M unit :=
  match pairs with
  | [] => ret tt
  | (raw, final) :: rest =>
      (if str_eqb (slice_to (sanitize_sheet_name raw) MAX_SHEETNAME_LEN) final
       then ret tt
       else log WARNING (lit "Sheet name adjusted: '" ++ raw ++ lit "' -> '"
                         ++ final ++ lit "'")) ;;;
      log_renames rest
  end.

Definition collect_tables (w : World) (folder : str) : M tables :=
  let files := list_input_files w folder in
  match files with
  | [] =>
      log ERROR
        (lit "No supported files (.xlsx/.xls/.csv/.tsv/.txt) found in the folder.") ;;;
      raise (SystemExit 1)
  | _ :: _ =>
      acc <- collect_files w files ([], []) ;;
      let final_names := uniquify_and_truncate (snd acc) MAX_SHEETNAME_LEN in
      log_renames (combine (snd acc) final_names) ;;;
      ret (fst acc, final_names)
  end.

(** [df[name] = values] for a list of cells.  A frame without rows takes
    the length of the list, its other columns filled up with missing
    values; a frame with rows wants a list of that many cells. *)
Definition setitem (df : DataFrame) (name : str) (values : list cell)
    : result DataFrame :=
  let rows := if (df_rows df =? 0)%nat then length values else df_rows df in
  if (length values =? rows)%nat
  then
    let columns :=
      if (df_rows df =? 0)%nat
      then map (fun col => (fst col, repeat CellNA rows)) (df_columns df)
      else df_columns df in
    if mem name (map fst columns)
    then Ok (Frame rows
               (map (fun col => if str_eqb (fst col) name
                                then (name, values) else col)
                    columns))
    else Ok (Frame rows (columns ++ [(name, values)]))
  else Raise ValueError.

(** What [save_to_excel] does to a frame before it writes it. *)
Definition ensure_column (df : DataFrame) : result DataFrame :=
  if ncols df =? 0 then setitem df (lit "(empty)") [] else Ok df.

(** The sheets handed to the sink, in order. *)
Fixpoint written_sheets (t : list event) : list (str * DataFrame) :=
  match t with
  | [] => []
  | EvToExcel name df :: t' => (name, df) :: written_sheets t'
  | _ :: t' => written_sheets t'
  end.

(** [os.makedirs(path, exist_ok=True)]: the empty path names no
    directory. *)
Definition makedirs (w : World) (path : str) : M unit :=
  call (EvMakedirs path)
    match path with
    | [] => Raise (OtherError (lit "FileNotFoundError"))
    | _ :: _ => os_makedirs w path
    end.

(** The [for df, name in zip(dfs, sheet_names)] loop; [written] holds the
    sheets handed over so far. *)
Fixpoint write_sheets (w : World) (out_path : str)
    (pairs : list (DataFrame * str)) (written : list (str * DataFrame))
    : M unit :=
  match pairs with
  | [] => ret tt
  | (df, name) :: rest =>
      df' <- ([], ensure_column df) ;;
      call (EvToExcel name df') (df_to_excel w out_path written name df') ;;;
      write_sheets w out_path rest (written ++ [(name, df')])
  end.

(** Leaving the [with] block saves the workbook, which the writer refuses
    when no sheet was handed to it. *)
Definition close_writer (w : World) (out_path : str) (t : list event)
    : M unit :=
  call (EvCloseWriter out_path)
    match written_sheets t with
    | [] => Raise (OtherError (lit "IndexError"))
    | sheets => writer_close w out_path sheets
    end.

Definition save_to_excel (w : World) (dfs : list DataFrame)
    (sheet_names : list str) (out_path : str) : M unit :=
  makedirs w (dirname out_path) ;;;
  call (EvOpenWriter out_path) (pd_ExcelWriter w out_path) ;;;
  finally (write_sheets w out_path (combine dfs sheet_names) [])
    (close_writer w out_path) ;;;
  log INFO (lit "Saved merged workbook -> " ++ out_path).

Record Args : Type := mkArgs {
  input_folder : str;
  output_name : str;
  quiet : bool
}.

(** [main], after [parse_args].  The [quiet] flag only selects which log
    records are shown; the trace keeps them all. *)
Definition main (w : World) (args : Args) : M unit :=
  let folder := abspath w (input_folder args) in
  if negb (isdir w folder) then
    log ERROR (lit "Input folder not found: " ++ folder) ;;;
    raise (SystemExit 1)
  else
    r <- collect_tables w folder ;;
    let out_path := path_join folder (output_name args) in
    save_to_excel w (fst r) (snd r) out_path.

(** ** Observations on traces *)

Definition is_read (e : event) : bool :=
  match e with
  | EvReadCsv _ _ | EvExcelFile _ | EvReadExcel _ _ => true
  | _ => false
  end.

Definition is_write (e : event) : bool :=
  match e with
  | EvMakedirs _ | EvOpenWriter _ | EvToExcel _ _ | EvCloseWriter _ => true
  | _ => false
  end.

Definition failed {A : Type} (r : result A) : bool :=
  match r with
  | Ok _ => false
  | Raise _ => true
  end.

(** The number of calls of [pd.read_csv] in a trace that raised. *)
Fixpoint failed_attempts (w : World) (t : list event) : nat :=
  match t with
  | [] => O
  | EvReadCsv path enc :: t' =>
      ((if failed (pd_read_csv w path enc) then 1 else 0)
       + failed_attempts w t')%nat
  | _ :: t' => failed_attempts w t'
  end.

(** ** Vocabulary of the statements *)

Definition all_space (s : str) : bool := forallb is_space s.

Definition is_digit (c : ascii) : bool :=
  ((48 <=? N_of_ascii c) && (N_of_ascii c <=? 57))%N.

(** The number a list of decimal digits stands for, least significant
    digit first. *)
Fixpoint digits_val (s : str) : N :=
  match s with
  | [] => 0
  | c :: t => (N_of_ascii c - 48) + 10 * digits_val t
  end%N.

(** A name free of the characters a sheet name must not contain. *)
Definition legal (s : str) : Prop := Forall (fun c => is_illegal c = false) s.

(** A resolved name, as the data model has it. *)
Definition valid_name (max_len : Z) (s : str) : Prop :=
  s <> [] /\ len s <= max_len /\ legal s.

(** The sanitised and truncated form of a raw name, and the candidate
    the [while] loop starts from. *)
Definition base_of (raw : str) (max_len : Z) : str :=
  slice_to (sanitize_sheet_name raw) max_len.

Definition first_candidate (raw : str) (max_len : Z) : str :=
  or_default (base_of raw max_len) (lit "Sheet").

(** [c] is what the resolver can make of [raw]: its first candidate, or
    its base with one of the suffixes [_1] .. [_bound]. *)
Definition derived_from (max_len : Z) (bound : N) (raw c : str) : Prop :=
  c = first_candidate raw max_len
  \/ exists idx, (1 <= idx <= bound)%N
                 /\ c = next_candidate (base_of raw max_len) max_len idx.

(** The indices [idx], [idx + 1], ..., [n] of them. *)
Definition indices (idx : N) (n : nat) : list N :=
  map (fun k => (idx + N.of_nat k)%N) (seq 0 n).

(** The test [list_input_files] applies to a directory entry: a regular
    file whose extension, lower-cased, is a supported one. *)
Definition selected (w : World) (folder name : str) : bool :=
  isfile w (path_join folder name)
  && mem (lower (snd (splitext name))) (EXCEL_EXTS ++ CSV_EXTS).

(** The frame written in place of a frame without columns. *)
Definition placeholder : DataFrame := mkDataFrame [(lit "(empty)", [])].

(** The order [list_input_files] sorts by. *)
Definition key_le (key : str -> str) (p q : str) : Prop :=
  str_leb (key p) (key q) = true.

(** Names in normal form: no illegal character, and white space only as
    single spaces between other characters. *)
Definition starts_with_non_space (s : str) : bool :=
  match s with
  | [] => false
  | c :: _ => negb (is_space c)
  end.

Fixpoint no_trailing_ws (s : str) : bool :=
  match s with
  | [] => true
  | c :: t =>
      match t with
      | [] => negb (is_space c)
      | _ :: _ => no_trailing_ws t
      end
  end.

Fixpoint single_spaced (s : str) : bool :=
  match s with
  | [] => true
  | c :: t =>
      (if is_space c then char_eqb c " " && starts_with_non_space t else true)
      && single_spaced t
  end.

Definition is_clean (s : str) : bool :=
  starts_with_non_space s
  && forallb (fun c => negb (is_illegal c)) s
  && single_spaced s.

(** The lower-cased first candidate of a raw name: what the resolver
    looks up first. *)
Definition first_key (max_len : Z) (raw : str) : str :=
  lower (first_candidate raw max_len).

(** The record [collect_tables] logs for a name it changed. *)
Definition rename_notice (p : str * str) : event :=
  EvLog WARNING (lit "Sheet name adjusted: '" ++ fst p ++ lit "' -> '"
                 ++ snd p ++ lit "'").

Definition renamed (p : str * str) : bool :=
  negb (str_eqb (base_of (fst p) MAX_SHEETNAME_LEN) (snd p)).

(** The events of extracting the files of a list one after the other. *)
Definition extraction_trace (w : World) (files : list str) : list event :=
  concat (map (fun path => fst (collect_file w path ([], []))) files).

Definition extracts (w : World) (path : str) : bool :=
  negb (failed (snd (collect_file w path ([], [])))).

(** A folder path as [os.path.abspath] returns it: it ends with a slash
    only when it consists of slashes. *)
Definition normal_folder (folder : str) : bool :=
  negb (endswith "/" folder)
  || match lstrip_char "/" folder with
     | [] => true
     | _ :: _ => false
     end.

(** The frame [save_to_excel] hands to the sink for a frame. *)
Definition sheet_of (df : DataFrame) : DataFrame :=
  if ncols df =? 0 then placeholder else df.

(** What the loop of [save_to_excel] hands to the sink for a pair of a
    frame and a name. *)
Definition handed (p : DataFrame * str) : str * DataFrame :=
  (snd p, sheet_of (fst p)).

(** A frame the loop of [save_to_excel] can hand over: one with a
    column, or one with neither column nor row. *)
Definition writable (df : DataFrame) : bool :=
  negb (ncols df =? 0) || (nrows df =? 0).

(** The output side accepts whatever a run asks of it at [out_path]. *)
Definition sink_accepts (w : World) (out_path : str) : Prop :=
  dirname out_path <> []
  /\ os_makedirs w (dirname out_path) = Ok tt
  /\ pd_ExcelWriter w out_path = Ok tt
  /\ (forall written name df,
        df_to_excel w out_path written name df = Ok tt)
  /\ (forall written, writer_close w out_path written = Ok tt).

(** * Properties *)

(** ** Strings *)

Lemma char_eqb_eq (a b : ascii) : char_eqb a b = true <-> a = b.
Proof. apply Ascii.eqb_eq. Qed.

Lemma str_eqb_eq (a b : str) : str_eqb a b = true <-> a = b.
Proof.
  revert b; induction a as [|x a IH]; intros [|y b]; simpl;
    try (split; [discriminate | discriminate]); try tauto.
  rewrite andb_true_iff, char_eqb_eq, IH.
  split; [intros [-> ->]; reflexivity | intros H; inversion H; auto].
Qed.

Lemma str_eqb_refl (a : str) : str_eqb a a = true.
Proof. apply str_eqb_eq; reflexivity. Qed.

Lemma mem_In (k : str) (keys : list str) : mem k keys = true <-> In k keys.
Proof.
  unfold mem; rewrite existsb_exists; split.
  - intros (x & Hx & E); apply str_eqb_eq in E; subst; exact Hx.
  - intros H; exists k; split; [exact H | apply str_eqb_refl].
Qed.

Lemma mem_not_In (k : str) (keys : list str) :
  mem k keys = false <-> ~ In k keys.
Proof.
  rewrite <- mem_In; destruct (mem k keys); split; intros; congruence.
Qed.


Lemma len_app (a b : str) : len (a ++ b) = len a + len b.
Proof. unfold len; rewrite length_app; lia. Qed.

Lemma space_is_space : is_space " " = true.
Proof. reflexivity. Qed.


Lemma lower_app (a b : str) : lower (a ++ b) = lower a ++ lower b.
Proof. apply map_app. Qed.

(** ** Sanitising: stripping and collapsing commute *)

Lemma lstrip_all_space (s : str) : all_space s = true -> lstrip s = [].
Proof.
  induction s as [|c t IH]; simpl; [reflexivity|].
  destruct (is_space c); simpl; [exact IH | discriminate].
Qed.

Lemma lstrip_app (a b : str) :
  lstrip (a ++ b) = if all_space a then lstrip b else lstrip a ++ b.
Proof.
  induction a as [|c t IH]; simpl; [reflexivity|].
  destruct (is_space c); simpl; [exact IH | reflexivity].
Qed.

Lemma all_space_rev (s : str) : all_space (rev s) = all_space s.
Proof.
  unfold all_space; induction s as [|c t IH]; simpl; [reflexivity|].
  rewrite forallb_app, IH; simpl; rewrite andb_true_r; apply andb_comm.
Qed.

Lemma rstrip_all_space (s : str) : all_space s = true -> rstrip s = [].
Proof.
  intros H; unfold rstrip; rewrite lstrip_all_space; [reflexivity|].
  rewrite all_space_rev; exact H.
Qed.

Lemma rstrip_cons (c : ascii) (t : str) :
  rstrip (c :: t) = if all_space (c :: t) then [] else c :: rstrip t.
Proof.
  unfold rstrip; simpl rev; rewrite lstrip_app, all_space_rev.
  simpl all_space.
  destruct (all_space t) eqn:Ht.
  - rewrite andb_true_r; simpl.
    rewrite (lstrip_all_space (rev t)) by (rewrite all_space_rev; exact Ht).
    destruct (is_space c); reflexivity.
  - rewrite andb_false_r, rev_app_distr; reflexivity.
Qed.

Lemma all_space_sub_ws_runs (b : bool) (s : str) :
  all_space (sub_ws_runs b s) = all_space s.
Proof.
  revert b; induction s as [|c t IH]; intros b; simpl; [reflexivity|].
  destruct (is_space c) eqn:Hc; simpl.
  - destruct b; simpl; rewrite ?space_is_space, IH; reflexivity.
  - rewrite Hc; reflexivity.
Qed.

Lemma lstrip_sub_ws_runs (b : bool) (s : str) :
  lstrip (sub_ws_runs b s) = sub_ws_runs false (lstrip s).
Proof.
  revert b; induction s as [|c t IH]; intros b; simpl; [reflexivity|].
  destruct (is_space c) eqn:Hc.
  - destruct b; simpl; rewrite ?space_is_space; apply IH.
  - simpl; rewrite Hc; reflexivity.
Qed.

Lemma rstrip_sub_ws_runs (b : bool) (s : str) :
  rstrip (sub_ws_runs b s) = sub_ws_runs b (rstrip s).
Proof.
  revert b; induction s as [|c t IH]; intros b; [reflexivity|].
  rewrite (rstrip_cons c t).
  destruct (all_space (c :: t)) eqn:Hall.
  - apply rstrip_all_space; rewrite all_space_sub_ws_runs; exact Hall.
  - simpl in Hall |- *.
    destruct (is_space c) eqn:Hc; simpl in Hall.
    + destruct b.
      * apply IH.
      * rewrite rstrip_cons; simpl.
        rewrite all_space_sub_ws_runs, Hall; simpl.
        f_equal; apply IH.
    + rewrite rstrip_cons; simpl; rewrite Hc; simpl.
      f_equal; apply IH.
Qed.

Lemma strip_collapse_ws (s : str) :
  strip (collapse_ws s) = collapse_ws (strip s).
Proof.
  unfold strip, collapse_ws.
  rewrite lstrip_sub_ws_runs; apply rstrip_sub_ws_runs.
Qed.

(** C3.  On every input [sanitize_sheet_name] returns what the
    specification describes: the illegal characters replaced by a space,
    then every run of white space collapsed to one space, then the ends
    trimmed, and ["Sheet"] when nothing is left.  The source trims before
    it collapses; the two orders agree. *)
Theorem sanitize_sheet_name_meets_spec (name : str) :
  sanitize_sheet_name name = sanitize_spec name.
Proof.
  unfold sanitize_sheet_name, sanitize_spec.
  rewrite strip_collapse_ws; reflexivity.
Qed.

(** ** Decimal numerals *)

Lemma digit_char_facts (c : ascii) :
  is_digit c = true ->
  lower_char c = c /\ is_illegal c = false /\ c <> "_"%char.
Proof.
  destruct c as [[] [] [] [] [] [] [] []]; vm_compute; intros H;
    try discriminate H; repeat split; discriminate.
Qed.


Lemma is_digit_ascii_of_N (d : N) :
  (d < 10)%N -> is_digit (ascii_of_N (48 + d)) = true.
Proof.
  intros H; unfold is_digit.
  rewrite N_ascii_embedding by lia.
  apply andb_true_iff; split; apply N.leb_le; lia.
Qed.

Lemma dec_digits_are_digits (fuel : nat) (n : N) :
  Forall (fun c => is_digit c = true) (dec_digits fuel n).
Proof.
  revert n; induction fuel as [|f IH]; intros n; simpl; constructor.
  - apply is_digit_ascii_of_N; apply N.mod_lt; lia.
  - destruct (n <? 10)%N; [constructor | apply IH].
Qed.

Lemma dec_digits_val (fuel : nat) (n : N) :
  (n < 2 ^ N.of_nat fuel)%N -> digits_val (dec_digits fuel n) = n.
Proof.
  revert n; induction fuel as [|f IH]; intros n Hn.
  - simpl in *; lia.
  - cbn [dec_digits digits_val].
    rewrite N_ascii_embedding
      by (pose proof (N.mod_lt n 10 ltac:(lia)); lia).
    pose proof (N.div_mod n 10 ltac:(lia)) as Hdm.
    destruct (n <? 10)%N eqn:Hlt.
    + apply N.ltb_lt in Hlt. rewrite N.mod_small by lia.
      cbn [digits_val]; lia.
    + apply N.ltb_ge in Hlt.
      rewrite IH.
      * clear Hn IH; generalize dependent (n / 10)%N;
          generalize (n mod 10)%N; intros; lia.
      * rewrite Nat2N.inj_succ, N.pow_succ_r' in Hn.
        apply N.Div0.div_lt_upper_bound.
        generalize dependent (2 ^ N.of_nat f)%N; intros; lia.
Qed.

Lemma dec_digits_length (fuel k : nat) (n : N) :
  (1 <= k)%nat -> (n < 10 ^ N.of_nat k)%N ->
  (length (dec_digits fuel n) <= k)%nat.
Proof.
  revert k n; induction fuel as [|f IH]; intros k n Hk Hn;
    cbn [dec_digits length]; [lia|].
  destruct (n <? 10)%N eqn:Hlt; cbn [length]; [lia|].
  apply N.ltb_ge in Hlt.
  destruct k as [|[|k]]; [lia | change (n < 10)%N in Hn; lia |].
  apply le_n_S, IH; [lia|].
  rewrite Nat2N.inj_succ, N.pow_succ_r' in Hn.
  apply N.Div0.div_lt_upper_bound.
  generalize dependent (10 ^ N.of_nat (S k))%N; intros; lia.
Qed.

Lemma str_of_N_inj (i j : N) : str_of_N i = str_of_N j -> i = j.
Proof.
  unfold str_of_N; intros H.
  apply (f_equal (@rev ascii)) in H; rewrite !rev_involutive in H.
  apply (f_equal digits_val) in H.
  assert (Hfuel : forall n, (n < 2 ^ N.of_nat (S (N.to_nat (N.log2 n))))%N).
  { intros n; rewrite Nat2N.inj_succ, N2Nat.id.
    destruct n as [|p]; [reflexivity|].
    apply N.log2_spec; lia. }
  rewrite !dec_digits_val in H by apply Hfuel; exact H.
Qed.

Lemma str_of_N_digits (n : N) :
  Forall (fun c => is_digit c = true) (str_of_N n).
Proof. apply Forall_rev, dec_digits_are_digits. Qed.

Lemma str_of_N_length (k : nat) (n : N) :
  (1 <= k)%nat -> (n < 10 ^ N.of_nat k)%N -> (length (str_of_N n) <= k)%nat.
Proof.
  intros Hk Hn; unfold str_of_N; rewrite length_rev.
  apply dec_digits_length; assumption.
Qed.

Lemma str_of_N_nonempty (n : N) : str_of_N n <> [].
Proof.
  unfold str_of_N; cbn [dec_digits rev]; intros H.
  apply (f_equal (@length ascii)) in H.
  rewrite length_app in H; cbn [length] in H; lia.
Qed.

(** ** Candidates and their keys *)

Lemma app_sep_inj (sep : ascii) (a b d d' : str) :
  ~ In sep d -> ~ In sep d' -> a ++ sep :: d = b ++ sep :: d' -> d = d'.
Proof.
  revert b; induction a as [|x a IH]; intros [|y b] Hd Hd' E; simpl in E.
  - inversion E; reflexivity.
  - inversion E; subst; exfalso; apply Hd, in_or_app; right; left; reflexivity.
  - inversion E; subst; exfalso; apply Hd', in_or_app; right; left; reflexivity.
  - inversion E; eapply IH; eassumption.
Qed.

Lemma str_of_N_no_underscore (n : N) : ~ In "_"%char (str_of_N n).
Proof.
  intros H.
  pose proof (str_of_N_digits n) as D; rewrite Forall_forall in D.
  apply D, digit_char_facts in H; destruct H as (_ & _ & H); congruence.
Qed.

Lemma lower_str_of_N (n : N) : lower (str_of_N n) = str_of_N n.
Proof.
  unfold lower; induction (str_of_N_digits n) as [|c t Hc _ IH];
    simpl; [reflexivity|].
  apply digit_char_facts in Hc; destruct Hc as (-> & _); rewrite IH.
  reflexivity.
Qed.

Lemma lower_suffix_of (idx : N) : lower (suffix_of idx) = suffix_of idx.
Proof.
  unfold suffix_of; simpl; rewrite lower_str_of_N; reflexivity.
Qed.

Lemma slice_to_firstn (s : str) (k : Z) : exists n, slice_to s k = firstn n s.
Proof. unfold slice_to; destruct (k <? 0); eexists; reflexivity. Qed.

Lemma next_candidate_shape (base : str) (max_len : Z) (idx : N) :
  exists n, next_candidate base max_len idx = firstn n base ++ suffix_of idx.
Proof.
  unfold next_candidate.
  destruct (len base + len (suffix_of idx) >? max_len).
  - destruct (slice_to_firstn base (max_len - len (suffix_of idx))) as [n ->].
    exists n; reflexivity.
  - exists (length base); rewrite firstn_all; reflexivity.
Qed.

Lemma next_candidate_key_inj (base : str) (max_len : Z) (i j : N) :
  lower (next_candidate base max_len i) = lower (next_candidate base max_len j)
  -> i = j.
Proof.
  destruct (next_candidate_shape base max_len i) as [n ->].
  destruct (next_candidate_shape base max_len j) as [n' ->].
  rewrite !lower_app, !lower_suffix_of; unfold suffix_of; intros E.
  apply app_sep_inj in E; auto using str_of_N_no_underscore, str_of_N_inj.
Qed.

(** ** The [while] loop *)

Lemma indices_S (idx : N) (n : nat) :
  indices idx (S n) = idx :: indices (idx + 1) n.
Proof.
  unfold indices; simpl; f_equal; [f_equal; lia|].
  rewrite <- seq_shift, map_map.
  apply map_ext; intros k; lia.
Qed.

Lemma indices_length (idx : N) (n : nat) : length (indices idx n) = n.
Proof. unfold indices; rewrite length_map, length_seq; reflexivity. Qed.

Lemma indices_NoDup (idx : N) (n : nat) : NoDup (indices idx n).
Proof.
  revert idx; induction n as [|n IH]; intros idx; [constructor|].
  rewrite indices_S; constructor; [|apply IH].
  unfold indices; rewrite in_map_iff; intros (k & E & _); lia.
Qed.

Lemma keys_NoDup (base : str) (max_len : Z) (l : list N) :
  NoDup l -> NoDup (map (fun j => lower (next_candidate base max_len j)) l).
Proof.
  induction 1 as [|j l Hj _ IH]; simpl; constructor; [|exact IH].
  rewrite in_map_iff; intros (i & E & Hi).
  apply next_candidate_key_inj in E; subst; contradiction.
Qed.

Lemma while_seen_none (fuel : nat) (seen : list str) (base : str)
    (max_len : Z) (candidate : str) (idx : N) :
  while_seen (S fuel) seen base max_len candidate idx = None ->
  mem (lower candidate) seen = true
  /\ Forall (fun j => mem (lower (next_candidate base max_len j)) seen = true)
       (indices idx fuel).
Proof.
  revert candidate idx; induction fuel as [|f IH]; intros candidate idx H;
    simpl in H; destruct (mem (lower candidate) seen) eqn:Hm;
    try discriminate; split; try reflexivity.
  - constructor.
  - apply IH in H; destruct H as [H1 H2].
    rewrite indices_S; constructor; assumption.
Qed.

Lemma while_seen_enough (fuel : nat) (seen : list str) (base : str)
    (max_len : Z) (candidate : str) (idx : N) :
  (length seen + 2 <= fuel)%nat ->
  while_seen fuel seen base max_len candidate idx <> None.
Proof.
  intros Hfuel H.
  destruct fuel as [|f]; [lia|].
  apply while_seen_none in H; destruct H as [_ H].
  assert (L : (length (map (fun j => lower (next_candidate base max_len j))
                         (indices idx f)) <= length seen)%nat).
  { apply NoDup_incl_length; [apply keys_NoDup, indices_NoDup|].
    intros k Hk; apply in_map_iff in Hk; destruct Hk as (j & <- & Hj).
    rewrite Forall_forall in H; apply mem_In, H, Hj. }
  rewrite length_map, indices_length in L; lia.
Qed.

Lemma while_seen_more_fuel (fuel fuel' : nat) (seen : list str) (base : str)
    (max_len : Z) (candidate c : str) (idx : N) :
  (fuel <= fuel')%nat ->
  while_seen fuel seen base max_len candidate idx = Some c ->
  while_seen fuel' seen base max_len candidate idx = Some c.
Proof.
  revert fuel' candidate idx; induction fuel as [|f IH];
    intros fuel' candidate idx Hle H; [discriminate|].
  destruct fuel' as [|f']; [lia|].
  simpl in *; destruct (mem (lower candidate) seen); [|exact H].
  apply IH; [lia | exact H].
Qed.

Lemma while_seen_some (fuel : nat) (seen : list str) (base : str)
    (max_len : Z) (candidate c : str) (idx : N) :
  while_seen fuel seen base max_len candidate idx = Some c ->
  mem (lower c) seen = false
  /\ ((mem (lower candidate) seen = false /\ c = candidate)
      \/ (mem (lower candidate) seen = true
          /\ exists j, (idx <= j < idx + N.of_nat (pred fuel))%N
               /\ c = next_candidate base max_len j
               /\ forall i, (idx <= i < j)%N ->
                    mem (lower (next_candidate base max_len i)) seen = true)).
Proof.
  revert candidate idx; induction fuel as [|f IH]; intros candidate idx H;
    [discriminate|].
  simpl in H; destruct (mem (lower candidate) seen) eqn:Hm.
  - pose proof H as H0.
    apply IH in H; destruct H as [Hc [[Hn ->] | (Hn & j & Hj & -> & Hall)]].
    + split; [exact Hc|]; right; split; [reflexivity|].
      exists idx; split; [|split; [reflexivity | intros; lia]].
      destruct f; [discriminate H0 | simpl; lia].
    + split; [exact Hc|]; right; split; [reflexivity|].
      exists j; split; [|split; [reflexivity|]].
      * destruct f; simpl in *; lia.
      * intros i Hi; destruct (N.eq_dec i idx) as [->|Hne];
          [exact Hn | apply Hall; lia].
  - inversion H; subst; split; [exact Hm | left; split; reflexivity].
Qed.

Lemma while_seen_total (seen : list str) (base : str) (max_len : Z)
    (candidate : str) (idx : N) :
  exists c,
    (forall fuel, (length seen + 2 <= fuel)%nat ->
       while_seen fuel seen base max_len candidate idx = Some c)
    /\ mem (lower c) seen = false
    /\ ((mem (lower candidate) seen = false /\ c = candidate)
        \/ (mem (lower candidate) seen = true
            /\ exists j, (idx <= j <= idx + N.of_nat (length seen))%N
                 /\ c = next_candidate base max_len j
                 /\ forall i, (idx <= i < j)%N ->
                      mem (lower (next_candidate base max_len i)) seen = true)).
Proof.
  destruct (while_seen (length seen + 2) seen base max_len candidate idx)
    as [c|] eqn:E.
  - exists c; split.
    + intros fuel Hf; eapply while_seen_more_fuel; eassumption.
    + apply while_seen_some in E.
      destruct E as [Hc [H | (Hn & j & Hj & -> & Hall)]];
        split; auto.
      replace (pred (length seen + 2)) with (S (length seen)) in Hj by lia.
      right; split; [exact Hn|]; exists j; repeat split; auto; lia.
  - exfalso; revert E; apply while_seen_enough; lia.
Qed.

(** ** Valid names *)

Lemma legal_app (a b : str) : legal a -> legal b -> legal (a ++ b).
Proof. unfold legal; intros; apply Forall_app; split; assumption. Qed.

Lemma legal_firstn (n : nat) (s : str) : legal s -> legal (firstn n s).
Proof.
  unfold legal; rewrite !Forall_forall; intros H c Hc.
  apply H; eapply In_nth_error in Hc; destruct Hc as [k Hk].
  revert s n c H Hk; induction k as [|k IH]; intros [|x s] [|n] c H Hk;
    simpl in *; try discriminate.
  - inversion Hk; left; reflexivity.
  - right; eapply IH; [|exact Hk]. intros; auto.
Qed.

Lemma legal_slice_to (s : str) (k : Z) : legal s -> legal (slice_to s k).
Proof.
  intros H; destruct (slice_to_firstn s k) as [n ->].
  apply legal_firstn, H.
Qed.

Lemma legal_lstrip (s : str) : legal s -> legal (lstrip s).
Proof.
  induction 1 as [|c t Hc Ht IH]; simpl; [constructor|].
  destruct (is_space c); [exact IH | constructor; assumption].
Qed.

Lemma legal_rev (s : str) : legal s -> legal (rev s).
Proof. apply Forall_rev. Qed.

Lemma legal_strip (s : str) : legal s -> legal (strip s).
Proof.
  intros H; unfold strip, rstrip.
  apply legal_rev, legal_lstrip, legal_rev, legal_lstrip, H.
Qed.

Lemma legal_sub_illegal (s : str) : legal (sub_illegal s).
Proof.
  unfold sub_illegal; induction s as [|c t IH]; simpl; constructor;
    [|exact IH].
  destruct (is_illegal c) eqn:Hc; [reflexivity | exact Hc].
Qed.

Lemma legal_sub_ws_runs (b : bool) (s : str) :
  legal s -> legal (sub_ws_runs b s).
Proof.
  intros H; revert b; induction H as [|c t Hc Ht IH]; intros b; simpl;
    [constructor|].
  destruct (is_space c); [destruct b|]; try constructor;
    try reflexivity; try apply IH; auto.
Qed.

Lemma legal_str_of_N (n : N) : legal (str_of_N n).
Proof.
  unfold legal; eapply Forall_impl; [|apply str_of_N_digits].
  intros c Hc; apply digit_char_facts in Hc; tauto.
Qed.

Lemma legal_suffix_of (idx : N) : legal (suffix_of idx).
Proof. constructor; [reflexivity | apply legal_str_of_N]. Qed.

Lemma legal_Sheet : legal (lit "Sheet").
Proof. repeat constructor. Qed.

Lemma or_default_nonempty (s d : str) : d <> [] -> or_default s d <> [].
Proof. destruct s; simpl; [auto | discriminate]. Qed.

Lemma sanitize_sheet_name_nonempty (name : str) :
  sanitize_sheet_name name <> [].
Proof. apply or_default_nonempty; discriminate. Qed.

Lemma sanitize_sheet_name_legal (name : str) :
  legal (sanitize_sheet_name name).
Proof.
  unfold sanitize_sheet_name.
  destruct (collapse_ws (strip (sub_illegal name))) eqn:E; simpl;
    [apply legal_Sheet|].
  rewrite <- E; apply legal_sub_ws_runs, legal_strip, legal_sub_illegal.
Qed.

Lemma slice_to_len (s : str) (k : Z) : 0 <= k -> len (slice_to s k) <= k.
Proof.
  intros Hk; unfold slice_to, len.
  destruct (k <? 0) eqn:E; [apply Z.ltb_lt in E; lia|].
  rewrite length_firstn; lia.
Qed.

Lemma slice_to_nonempty (s : str) (k : Z) :
  0 < k -> s <> [] -> slice_to s k <> [].
Proof.
  intros Hk Hs; unfold slice_to.
  destruct (k <? 0) eqn:E; [apply Z.ltb_lt in E; lia|].
  destruct s as [|c t]; [congruence|].
  destruct (Z.to_nat k) eqn:En; [lia | discriminate].
Qed.


Lemma first_candidate_valid (raw : str) (max_len : Z) :
  0 < max_len ->
  first_candidate raw max_len = base_of raw max_len
  /\ valid_name max_len (first_candidate raw max_len).
Proof.
  intros Hm; unfold first_candidate, base_of.
  pose proof (slice_to_nonempty (sanitize_sheet_name raw) max_len Hm
                (sanitize_sheet_name_nonempty raw)) as Hne.
  destruct (slice_to (sanitize_sheet_name raw) max_len) as [|c t] eqn:E;
    [congruence|].
  simpl; split; [reflexivity|]; rewrite <- E; repeat split.
  - rewrite E; discriminate.
  - apply slice_to_len; lia.
  - apply legal_slice_to, sanitize_sheet_name_legal.
Qed.


Lemma suffix_of_fits (idx : N) :
  (idx < 10 ^ 30)%N -> len (suffix_of idx) <= MAX_SHEETNAME_LEN.
Proof.
  intros H; unfold suffix_of, len, MAX_SHEETNAME_LEN; simpl length.
  pose proof (str_of_N_length 30 idx ltac:(lia) H); lia.
Qed.

(** The assignment in the [while] body: the suffix is appended when the
    result fits, and otherwise the base gives way, to the character. *)
Lemma next_candidate_rule (base : str) (max_len : Z) (idx : N) :
  len (suffix_of idx) <= max_len ->
  (len base + len (suffix_of idx) <= max_len ->
     next_candidate base max_len idx = base ++ suffix_of idx)
  /\ (len base + len (suffix_of idx) > max_len ->
        next_candidate base max_len idx
        = firstn (Z.to_nat (max_len - len (suffix_of idx))) base
          ++ suffix_of idx
        /\ len (next_candidate base max_len idx) = max_len)
  /\ len (next_candidate base max_len idx) <= max_len.
Proof.
  intros Hs; unfold next_candidate, slice_to.
  destruct (len base + len (suffix_of idx) >? max_len) eqn:E.
  - apply Z.gtb_lt in E.
    destruct (max_len - len (suffix_of idx) <? 0) eqn:E';
      [apply Z.ltb_lt in E'; lia|].
    assert (L : len (firstn (Z.to_nat (max_len - len (suffix_of idx))) base
                     ++ suffix_of idx) = max_len).
    { rewrite len_app; unfold len in *; rewrite length_firstn; lia. }
    repeat split; auto; lia.
  - rewrite Z.gtb_ltb in E; apply Z.ltb_ge in E.
    repeat split; try lia; rewrite len_app; lia.
Qed.

Lemma next_candidate_valid (base : str) (max_len : Z) (idx : N) :
  legal base -> len (suffix_of idx) <= max_len ->
  valid_name max_len (next_candidate base max_len idx).
Proof.
  intros Hb Hs; repeat split.
  - destruct (next_candidate_shape base max_len idx) as [n ->].
    unfold suffix_of; intros E; apply app_eq_nil in E; destruct E; discriminate.
  - apply next_candidate_rule, Hs.
  - destruct (next_candidate_shape base max_len idx) as [n ->].
    apply legal_app; [apply legal_firstn, Hb | apply legal_suffix_of].
Qed.

Lemma derived_from_valid (bound : N) (raw c : str) :
  (bound < 10 ^ 30)%N ->
  derived_from MAX_SHEETNAME_LEN bound raw c ->
  valid_name MAX_SHEETNAME_LEN c.
Proof.
  intros Hb [-> | (idx & Hidx & ->)].
  - apply first_candidate_valid; reflexivity.
  - apply next_candidate_valid.
    + apply legal_slice_to, sanitize_sheet_name_legal.
    + apply suffix_of_fits; lia.
Qed.

(** ** The [for] loop *)

Lemma resolve_one_total (seen : list str) (raw : str) (max_len : Z) :
  exists c,
    (forall fuel, (length seen + 2 <= fuel)%nat ->
       resolve_one fuel seen raw max_len = Some c)
    /\ mem (lower c) seen = false
    /\ derived_from max_len (1 + N.of_nat (length seen)) raw c.
Proof.
  unfold resolve_one.
  destruct (while_seen_total seen (slice_to (sanitize_sheet_name raw) max_len)
              max_len
              (or_default (slice_to (sanitize_sheet_name raw) max_len)
                 (lit "Sheet")) 1)
    as (c & Hrun & Hc & Hshape).
  exists c; repeat split; auto.
  destruct Hshape as [[_ ->] | (_ & j & Hj & -> & _)];
    [left; reflexivity | right; exists j; split; [lia | reflexivity]].
Qed.

Lemma uniquify_loop_spec (max_len : Z) (names : list str) :
  forall seen : list str,
  exists out,
    (forall fuel result, (length seen + length names < fuel)%nat ->
       uniquify_loop fuel names max_len seen result = Some (result ++ out))
    /\ Forall2 (derived_from max_len (N.of_nat (length seen + length names)))
         names out
    /\ NoDup (map lower out)
    /\ (forall c, In c out -> ~ In (lower c) seen).
Proof.
  induction names as [|raw rest IH]; intros seen.
  - exists []; repeat split; try constructor; [|intros c []].
    intros fuel result _; simpl; rewrite app_nil_r; reflexivity.
  - destruct (resolve_one_total seen raw max_len) as (c & Hrun & Hc & Hd).
    destruct (IH (lower c :: seen)) as (out & Hloop & Hder & Hnd & Hfresh).
    exists (c :: out); repeat split.
    + intros fuel result Hf; simpl in *.
      rewrite Hrun by lia.
      rewrite Hloop by (simpl; lia).
      rewrite <- app_assoc; reflexivity.
    + constructor.
      * destruct Hd as [-> | (j & Hj & ->)];
          [left; reflexivity | right; exists j; split; [simpl; lia|reflexivity]].
      * replace (length seen + length (raw :: rest))%nat
          with (length (lower c :: seen) + length rest)%nat by (simpl; lia).
        exact Hder.
    + simpl; constructor; [|exact Hnd].
      rewrite in_map_iff; intros (c' & E & Hc').
      apply (Hfresh c' Hc'); left; symmetry; exact E.
    + intros c' [<- | Hc'].
      * apply mem_not_In, Hc.
      * intros Hin; apply (Hfresh c' Hc'); right; exact Hin.
Qed.

Lemma uniquify_fuel_spec (max_len : Z) (names : list str) :
  (forall fuel, (length names < fuel)%nat ->
     uniquify_fuel fuel names max_len
     = Some (uniquify_and_truncate names max_len))
  /\ Forall2 (derived_from max_len (N.of_nat (length names)))
       names (uniquify_and_truncate names max_len)
  /\ NoDup (map lower (uniquify_and_truncate names max_len)).
Proof.
  destruct (uniquify_loop_spec max_len names []) as (out & Hloop & Hd & Hnd & _).
  assert (E : uniquify_and_truncate names max_len = out).
  { unfold uniquify_and_truncate, uniquify_fuel.
    rewrite (Hloop (S (length names)) []) by (simpl; lia); reflexivity. }
  rewrite E; repeat split; auto.
  intros fuel Hf; unfold uniquify_fuel.
  rewrite (Hloop fuel []) by (simpl; lia); reflexivity.
Qed.

(** C1.  For every list of raw names (of fewer than 10^30 names, beyond
    which a suffix alone would not fit in 31 characters)
    [uniquify_and_truncate] returns a list of the same length whose i-th
    name is made from the i-th raw name; every returned name is non-empty,
    at most 31 characters long and free of the seven illegal characters,
    and no two returned names are equal after lower-casing. *)
Theorem uniquify_and_truncate_resolves (names : list str) :
  (N.of_nat (length names) < 10 ^ 30)%N ->
  let out := uniquify_and_truncate names MAX_SHEETNAME_LEN in
  length out = length names
  /\ Forall2 (derived_from MAX_SHEETNAME_LEN (N.of_nat (length names)))
       names out
  /\ Forall (valid_name MAX_SHEETNAME_LEN) out
  /\ NoDup (map lower out).
Proof.
  intros Hn out.
  destruct (uniquify_fuel_spec MAX_SHEETNAME_LEN names) as (_ & Hd & Hnd).
  fold out in Hd, Hnd; repeat split; auto.
  - symmetry; eapply Forall2_length; exact Hd.
  - clear Hnd; induction Hd as [|raw c names' out' H _ IH]; constructor;
      [eapply derived_from_valid; eassumption | exact IH].
Qed.

Lemma uniquify_and_truncate_resolves_witness :
  let names := [lit "Q1/Sales"; lit "Q1/Sales"; lit "Other"] in
  (N.of_nat (length names) < 10 ^ 30)%N
  /\ (let out := uniquify_and_truncate names MAX_SHEETNAME_LEN in
      length out = length names
      /\ Forall2 (derived_from MAX_SHEETNAME_LEN (N.of_nat (length names)))
           names out
      /\ Forall (valid_name MAX_SHEETNAME_LEN) out
      /\ NoDup (map lower out)).
Proof.
  split; [reflexivity|].
  apply (uniquify_and_truncate_resolves
           [lit "Q1/Sales"; lit "Q1/Sales"; lit "Other"]).
  reflexivity.
Defined.

(** C5.  The disambiguation loop terminates: whatever the used set, the
    base and the starting candidate, running the [while] loop for two more
    turns than there are used names (or any number beyond) yields a
    candidate whose lower-cased form is unused; and for every list of
    names and every [max_len] the resolver returns a result as soon as
    each loop may take more turns than there are names, so
    [uniquify_and_truncate] is a total function. *)
Theorem uniquify_and_truncate_terminates (names : list str) (max_len : Z) :
  (forall (seen : list str) (base candidate : str) (idx : N),
     exists c,
       (forall k, while_seen (length seen + 2 + k) seen base max_len
                    candidate idx = Some c)
       /\ mem (lower c) seen = false)
  /\ (forall k, uniquify_fuel (S (length names) + k) names max_len
                = Some (uniquify_and_truncate names max_len))
  /\ length (uniquify_and_truncate names max_len) = length names.
Proof.
  split; [|split].
  - intros seen base candidate idx.
    destruct (while_seen_total seen base max_len candidate idx)
      as (c & Hrun & Hc & _).
    exists c; split; [intros k; apply Hrun; lia | exact Hc].
  - intros k; apply uniquify_fuel_spec; lia.
  - destruct (uniquify_fuel_spec max_len names) as (_ & Hd & _).
    symmetry; eapply Forall2_length; exact Hd.
Qed.

(** C2, as the code has it.  When the first candidate of a name collides
    with a used name, the resolver tries the suffixes [_1], [_2], ... in
    turn and returns the first candidate whose lower-cased form is unused
    (its index is at most one more than the number of used names).  The
    candidate for a suffix that itself fits in [max_len] is base + suffix
    when that fits, and otherwise the first [max_len - len(suffix)]
    characters of the base followed by the suffix, exactly [max_len]
    characters in all.  In particular the first candidate tried for a
    colliding 31-character name is its first 29 characters plus [_1], 31
    characters long, and the name resolves to it when it is not itself
    used already. *)
Theorem collision_resolution (seen : list str) (raw : str) (max_len : Z) :
  let base := base_of raw max_len in
  mem (lower (first_candidate raw max_len)) seen = true ->
  exists j,
    (1 <= j <= 1 + N.of_nat (length seen))%N
    /\ (forall k, resolve_one (length seen + 2 + k) seen raw max_len
                  = Some (next_candidate base max_len j))
    /\ (forall i, (1 <= i < j)%N ->
          mem (lower (next_candidate base max_len i)) seen = true)
    /\ mem (lower (next_candidate base max_len j)) seen = false
    /\ (forall i, len (suffix_of i) <= max_len ->
          (len base + len (suffix_of i) <= max_len ->
             next_candidate base max_len i = base ++ suffix_of i)
          /\ (len base + len (suffix_of i) > max_len ->
                next_candidate base max_len i
                = firstn (Z.to_nat (max_len - len (suffix_of i))) base
                  ++ suffix_of i
                /\ len (next_candidate base max_len i) = max_len))
    /\ (max_len = MAX_SHEETNAME_LEN ->
          (forall i, (i < 10 ^ 30)%N -> len (suffix_of i) <= max_len)
          /\ (len base = 31 ->
                next_candidate base max_len 1 = firstn 29 base ++ lit "_1"
                /\ len (next_candidate base max_len 1) = 31
                /\ (mem (lower (firstn 29 base ++ lit "_1")) seen = false ->
                      j = 1%N))).
Proof.
  intros base Hcol.
  destruct (while_seen_total seen base max_len (first_candidate raw max_len) 1)
    as (c & Hrun & Hc & [[Hn _] | (_ & j & Hj & -> & Hall)]);
    [congruence|].
  exists j; split; [lia|]; split; [|split; [exact Hall|split; [exact Hc|split]]].
  - intros k; apply Hrun; lia.
  - intros i Hi; destruct (next_candidate_rule base max_len i Hi) as (A & B & _).
    split; assumption.
  - intros ->; split; [intros i Hi; apply suffix_of_fits, Hi|].
    intros Hlen.
    assert (Hs : suffix_of 1 = lit "_1") by reflexivity.
    assert (Hfit : len (suffix_of 1) <= MAX_SHEETNAME_LEN)
      by (rewrite Hs; vm_compute; discriminate).
    destruct (next_candidate_rule base MAX_SHEETNAME_LEN 1 Hfit)
      as (_ & B & _).
    destruct B as [B1 B2]; [rewrite Hlen, Hs; vm_compute; reflexivity|].
    rewrite Hs in B1; change (Z.to_nat (MAX_SHEETNAME_LEN - len (lit "_1")))
      with 29%nat in B1.
    split; [exact B1 | split; [exact B2|]].
    intros Hfree; rewrite <- B1 in Hfree.
    destruct (N.eq_dec j 1) as [E | Hne]; [exact E|].
    rewrite (Hall 1%N) in Hfree by lia; discriminate.
Qed.

Lemma collision_resolution_witness :
  let x := lit "abcdefghijklmnopqrstuvwxyz01234" in
  mem (lower (first_candidate x 31)) [lower x] = true
  /\ exists j,
       (1 <= j <= 1 + N.of_nat (length [lower x]))%N
       /\ (forall k, resolve_one (length [lower x] + 2 + k) [lower x] x 31
                     = Some (next_candidate (base_of x 31) 31 j))
       /\ (forall i, (1 <= i < j)%N ->
             mem (lower (next_candidate (base_of x 31) 31 i)) [lower x] = true)
       /\ mem (lower (next_candidate (base_of x 31) 31 j)) [lower x] = false
       /\ (forall i, len (suffix_of i) <= 31 ->
             (len (base_of x 31) + len (suffix_of i) <= 31 ->
                next_candidate (base_of x 31) 31 i
                = base_of x 31 ++ suffix_of i)
             /\ (len (base_of x 31) + len (suffix_of i) > 31 ->
                   next_candidate (base_of x 31) 31 i
                   = firstn (Z.to_nat (31 - len (suffix_of i))) (base_of x 31)
                     ++ suffix_of i
                   /\ len (next_candidate (base_of x 31) 31 i) = 31))
       /\ (31 = MAX_SHEETNAME_LEN ->
             (forall i, (i < 10 ^ 30)%N -> len (suffix_of i) <= 31)
             /\ (len (base_of x 31) = 31 ->
                   next_candidate (base_of x 31) 31 1
                   = firstn 29 (base_of x 31) ++ lit "_1"
                   /\ len (next_candidate (base_of x 31) 31 1) = 31
                   /\ (mem (lower (firstn 29 (base_of x 31) ++ lit "_1"))
                         [lower x] = false -> j = 1%N))).
Proof.
  split; [reflexivity|].
  apply (collision_resolution
           [lower (lit "abcdefghijklmnopqrstuvwxyz01234")]
           (lit "abcdefghijklmnopqrstuvwxyz01234") 31).
  reflexivity.
Defined.

(** C2 as stated fails: a 31-character name that collides while its first
    29 characters plus [_1] are in use as well resolves to the first 29
    characters plus [_2]. *)
Lemma collision_suffix_1_taken :
  let x := lit "abcdefghijklmnopqrstuvwxyz01234" in
  let x1 := firstn 29 x ++ lit "_1" in
  let x2 := firstn 29 x ++ lit "_2" in
  sanitize_sheet_name x = x
  /\ len x = 31
  /\ mem (lower x) [lower x1; lower x] = true
  /\ resolve_one 4 [lower x1; lower x] x MAX_SHEETNAME_LEN = Some x2
  /\ uniquify_and_truncate [x; x1; x] MAX_SHEETNAME_LEN = [x; x1; x2]
  /\ x2 <> x1.
Proof.
  vm_compute; repeat split; discriminate.
Qed.

(** The resolver on the scenarios of the specification, and at the edge
    of the bound on the number of names: the suffix for index 10^30 is
    alone longer than a sheet name may be. *)
Example uniquify_scenarios :
  uniquify_and_truncate [lit "A"; lit "B"] MAX_SHEETNAME_LEN
  = [lit "A"; lit "B"]
  /\ uniquify_and_truncate [lit "Report"; lit "Report"] MAX_SHEETNAME_LEN
     = [lit "Report"; lit "Report_1"]
  /\ uniquify_and_truncate [lit "Q1/Sales"; lit "Q1/Sales"; lit "Other"]
       MAX_SHEETNAME_LEN
     = [lit "Q1 Sales"; lit "Q1 Sales_1"; lit "Other"]
  /\ uniquify_and_truncate [lit " [] "; lit "sheet"; lit "SHEET"]
       MAX_SHEETNAME_LEN
     = [lit "Sheet"; lit "sheet_1"; lit "SHEET_2"].
Proof. repeat split. Qed.

Example suffix_beyond_the_bound :
  len (suffix_of (10 ^ 30 - 1)) = 31
  /\ len (suffix_of (10 ^ 30)) = 32
  /\ len (next_candidate (lit "a") MAX_SHEETNAME_LEN (10 ^ 30)) = 32.
Proof. repeat split. Qed.

(** ** Computations *)

Lemma bind_fst {A B : Type} (m : M A) (k : A -> M B) :
  fst (bind m k)
  = fst m ++ match snd m with
             | Ok a => fst (k a)
             | Raise _ => []
             end.
Proof.
  destruct m as [t [a|e]]; simpl; [destruct (k a); reflexivity|].
  rewrite app_nil_r; reflexivity.
Qed.

Lemma bind_snd_ok {A B : Type} (m : M A) (k : A -> M B) (a : A) :
  snd m = Ok a -> snd (bind m k) = snd (k a).
Proof.
  destruct m as [t r]; simpl; intros ->; destruct (k a); reflexivity.
Qed.

Lemma bind_snd_raise {A B : Type} (m : M A) (k : A -> M B) (e : exn) :
  snd m = Raise e -> snd (bind m k) = Raise e.
Proof. destruct m as [t r]; simpl; intros ->; reflexivity. Qed.

Lemma bind_failed {A B : Type} (m : M A) (k : A -> M B) :
  failed (snd m) = true -> failed (snd (bind m k)) = true.
Proof.
  destruct (snd m) as [a|e] eqn:E; [discriminate|]; intros _.
  rewrite (bind_snd_raise m k e E); reflexivity.
Qed.

Lemma bind_trace_Forall {A B : Type} (P : event -> Prop) (m : M A)
    (k : A -> M B) :
  Forall P (fst m) -> (forall a, snd m = Ok a -> Forall P (fst (k a))) ->
  Forall P (fst (bind m k)).
Proof.
  intros Hm Hk; rewrite bind_fst; apply Forall_app; split; [exact Hm|].
  destruct (snd m) as [a|e]; [apply Hk; reflexivity | constructor].
Qed.

(** ** Enumerating the sources *)

Lemma scan_names_filter (w : World) (folder : str) (names all_files : list str) :
  scan_names w folder names all_files
  = all_files ++ map (path_join folder) (filter (selected w folder) names).
Proof.
  revert all_files; induction names as [|name rest IH]; intros all_files;
    cbn [scan_names filter map]; [rewrite app_nil_r; reflexivity|].
  unfold selected at 1.
  destruct (isfile w (path_join folder name)); cbn [negb andb]; [|apply IH].
  destruct (mem (lower (snd (splitext name))) (EXCEL_EXTS ++ CSV_EXTS));
    rewrite IH; [rewrite <- app_assoc|]; reflexivity.
Qed.

Lemma list_input_files_filter (w : World) (folder : str) :
  list_input_files w folder
  = sort_by sort_key
      (map (path_join folder) (filter (selected w folder) (listdir w folder))).
Proof. unfold list_input_files; rewrite scan_names_filter; reflexivity. Qed.

Lemma filter_none {A : Type} (f : A -> bool) (l : list A) :
  (forall x, In x l -> f x = false) -> filter f l = [].
Proof.
  induction l as [|x l IH]; intros H; simpl; [reflexivity|].
  rewrite (H x) by (left; reflexivity).
  apply IH; intros y Hy; apply H; right; exact Hy.
Qed.

Lemma lower_char_cases (c d : ascii) :
  lower_char c = d -> c = d \/ c = ascii_of_N (N_of_ascii d - 32).
Proof.
  intros <-; destruct c as [[] [] [] [] [] [] [] []];
    (left; reflexivity) || (right; reflexivity).
Qed.

Lemma dot_extension_splitext (name : str) :
  In (lower name) (EXCEL_EXTS ++ CSV_EXTS) -> splitext name = (name, []).
Proof.
  intros H; simpl in H.
  repeat (destruct H as [H | H]; [|try contradiction]);
    repeat (destruct name as [|? name]; try discriminate H);
    injection H as H;
    repeat match goal with
           | E : _ = lower_char _ |- _ =>
               symmetry in E; apply lower_char_cases in E;
               destruct E as [-> | ->]
           end;
    reflexivity.
Qed.

(** C10.  An entry whose whole name is a dot followed by a supported
    extension, in whatever case, has that whole name as its stem and an
    empty extension; [list_input_files] does not select it, and returns
    what it returns for the same listing without the entry. *)
Theorem dot_extension_name_excluded (w : World) (folder name : str)
    (before after : list str) :
  In (lower name) (EXCEL_EXTS ++ CSV_EXTS) ->
  listdir w folder = before ++ name :: after ->
  splitext name = (name, [])
  /\ selected w folder name = false
  /\ list_input_files w folder
     = sort_by sort_key (scan_names w folder (before ++ after) []).
Proof.
  intros Hext Hdir.
  pose proof (dot_extension_splitext name Hext) as Hsplit.
  assert (Hsel : selected w folder name = false).
  { unfold selected; rewrite Hsplit; apply andb_false_r. }
  repeat split; auto.
  unfold list_input_files; rewrite Hdir, !scan_names_filter, !filter_app.
  cbn [filter]; rewrite Hsel; reflexivity.
Qed.

Lemma dot_extension_name_excluded_witness :
  let w := mkWorld (fun p => p) (fun _ => true)
             (fun _ => [lit "b.txt"; lit ".csv"; lit "a.csv"])
             (fun _ => true)
             (fun _ _ => Ok placeholder)
             (fun _ => Ok [])
             (fun _ _ => Ok placeholder) in
  In (lower (lit ".csv")) (EXCEL_EXTS ++ CSV_EXTS)
  /\ listdir w (lit "/data") = [lit "b.txt"] ++ lit ".csv" :: [lit "a.csv"]
  /\ splitext (lit ".csv") = (lit ".csv", [])
  /\ selected w (lit "/data") (lit ".csv") = false
  /\ list_input_files w (lit "/data")
     = sort_by sort_key
         (scan_names w (lit "/data") ([lit "b.txt"] ++ [lit "a.csv"]) []).
Proof.
  intros w.
  assert (H1 : In (lower (lit ".csv")) (EXCEL_EXTS ++ CSV_EXTS))
    by (right; right; left; reflexivity).
  assert (H2 : listdir w (lit "/data")
               = [lit "b.txt"] ++ lit ".csv" :: [lit "a.csv"])
    by reflexivity.
  split; [exact H1 | split; [exact H2|]].
  exact (dot_extension_name_excluded w (lit "/data") (lit ".csv")
           [lit "b.txt"] [lit "a.csv"] H1 H2).
Defined.

(** ** The order of the sources *)

Lemma N_of_ascii_inj (a b : ascii) : N_of_ascii a = N_of_ascii b -> a = b.
Proof.
  intros H; rewrite <- (ascii_N_embedding a), <- (ascii_N_embedding b), H.
  reflexivity.
Qed.


Lemma str_leb_total (a b : str) : str_leb a b = false -> str_leb b a = true.
Proof.
  revert b; induction a as [|x a IH]; intros [|y b]; simpl; try discriminate;
    try reflexivity.
  destruct (N_of_ascii x <? N_of_ascii y)%N eqn:E1; [discriminate|].
  destruct (N_of_ascii y <? N_of_ascii x)%N eqn:E2; [reflexivity|].
  apply IH.
Qed.

Lemma str_leb_antisym (a b : str) :
  str_leb a b = true -> str_leb b a = true -> a = b.
Proof.
  revert b; induction a as [|x a IH]; intros [|y b]; simpl; try discriminate;
    try reflexivity.
  destruct (N_of_ascii x <? N_of_ascii y)%N eqn:E1;
    destruct (N_of_ascii y <? N_of_ascii x)%N eqn:E2;
    try discriminate.
  - apply N.ltb_lt in E1, E2; lia.
  - intros H1 H2; f_equal; [|apply IH; assumption].
    apply N.ltb_ge in E1, E2; apply N_of_ascii_inj; lia.
Qed.

Lemma str_leb_trans (a b c : str) :
  str_leb a b = true -> str_leb b c = true -> str_leb a c = true.
Proof.
  revert b c; induction a as [|x a IH]; intros [|y b] [|z c]; simpl;
    try discriminate; try reflexivity.
  destruct (N_of_ascii x <? N_of_ascii y)%N eqn:E1;
    destruct (N_of_ascii y <? N_of_ascii x)%N eqn:E2;
    destruct (N_of_ascii y <? N_of_ascii z)%N eqn:E3;
    destruct (N_of_ascii z <? N_of_ascii y)%N eqn:E4;
    destruct (N_of_ascii x <? N_of_ascii z)%N eqn:E5;
    destruct (N_of_ascii z <? N_of_ascii x)%N eqn:E6;
    try discriminate; try reflexivity;
    repeat match goal with
           | H : (_ <? _)%N = true |- _ => apply N.ltb_lt in H
           | H : (_ <? _)%N = false |- _ => apply N.ltb_ge in H
           end;
    try lia.
  apply IH.
Qed.

Lemma insert_by_perm (key : str -> str) (x : str) (l : list str) :
  Permutation (insert_by key x l) (x :: l).
Proof.
  induction l as [|y l IH]; simpl; [reflexivity|].
  destruct (str_leb (key x) (key y)); [reflexivity|].
  rewrite IH; apply perm_swap.
Qed.

Lemma sort_by_perm (key : str -> str) (l : list str) :
  Permutation (sort_by key l) l.
Proof.
  induction l as [|x l IH]; simpl; [reflexivity|].
  rewrite insert_by_perm, IH; reflexivity.
Qed.

Lemma insert_by_sorted (key : str -> str) (x : str) (l : list str) :
  StronglySorted (key_le key) l ->
  StronglySorted (key_le key) (insert_by key x l).
Proof.
  induction 1 as [|y l Hs IH Hy]; simpl; [repeat constructor|].
  destruct (str_leb (key x) (key y)) eqn:E.
  - constructor; [constructor; assumption|].
    constructor; [exact E|].
    eapply Forall_impl; [|exact Hy].
    intros z Hz; eapply str_leb_trans; eassumption.
  - constructor; [exact IH|].
    eapply Permutation_Forall; [symmetry; apply insert_by_perm|].
    constructor; [apply str_leb_total, E | exact Hy].
Qed.

Lemma sort_by_sorted (key : str -> str) (l : list str) :
  StronglySorted (key_le key) (sort_by key l).
Proof.
  induction l as [|x l IH]; simpl; [constructor|].
  apply insert_by_sorted, IH.
Qed.

Lemma sorted_perm_unique (key : str -> str) (l1 l2 : list str) :
  StronglySorted (key_le key) l1 -> StronglySorted (key_le key) l2 ->
  Permutation l1 l2 -> NoDup (map key l1) -> l1 = l2.
Proof.
  intros H1; revert l2; induction H1 as [|x l1 Hs1 IH Hx]; intros l2 H2 Hp Hnd.
  - apply Permutation_nil in Hp; subst; reflexivity.
  - destruct H2 as [|y l2 Hs2 Hy];
      [symmetry in Hp; apply Permutation_nil in Hp; discriminate|].
    assert (E : x = y).
    { pose proof (Permutation_in x Hp (or_introl eq_refl)) as Hxi.
      pose proof (Permutation_in y (Permutation_sym Hp) (or_introl eq_refl))
        as Hyi.
      destruct Hxi as [E | Hxi]; [symmetry; exact E|].
      destruct Hyi as [E | Hyi]; [exact E|].
      rewrite Forall_forall in Hx, Hy.
      pose proof (str_leb_antisym _ _ (Hx y Hyi) (Hy x Hxi)) as Ek.
      simpl in Hnd; inversion Hnd as [|? ? Hni _]; subst.
      exfalso; apply Hni; rewrite Ek; apply in_map, Hyi. }
    subst y; f_equal; apply IH; [exact Hs2| |].
    + eapply Permutation_cons_inv; exact Hp.
    + simpl in Hnd; inversion Hnd; assumption.
Qed.

Lemma filter_perm {A : Type} (f : A -> bool) (l l' : list A) :
  Permutation l l' -> Permutation (filter f l) (filter f l').
Proof.
  induction 1 as [|x l l' _ IH|x y l|l l' l'' _ IH1 _ IH2]; simpl.
  - reflexivity.
  - destruct (f x); [constructor|]; exact IH.
  - destruct (f x), (f y); try reflexivity; apply perm_swap.
  - rewrite IH1; exact IH2.
Qed.

(** What [list_input_files] returns, whatever the listing order: the
    paths of the selected entries, sorted by lower-cased basename. *)
Lemma list_input_files_sorted (w : World) (folder : str) :
  StronglySorted (key_le sort_key) (list_input_files w folder)
  /\ Permutation (list_input_files w folder)
       (map (path_join folder)
          (filter (selected w folder) (listdir w folder))).
Proof.
  rewrite list_input_files_filter; split;
    [apply sort_by_sorted | apply sort_by_perm].
Qed.

(** Two listings of the same entries give the same result, as long as
    no two selected entries share a sort key. *)
Lemma list_input_files_deterministic (w w' : World) (folder : str) :
  Permutation (listdir w folder) (listdir w' folder) ->
  (forall p, isfile w p = isfile w' p) ->
  NoDup (map sort_key (list_input_files w folder)) ->
  list_input_files w folder = list_input_files w' folder.
Proof.
  intros Hp Hf Hnd.
  destruct (list_input_files_sorted w folder) as [S1 P1].
  destruct (list_input_files_sorted w' folder) as [S2 P2].
  apply (sorted_perm_unique sort_key); auto.
  rewrite P1, P2; apply Permutation_map.
  rewrite (filter_ext (selected w folder) (selected w' folder))
    by (intros name; unfold selected; rewrite Hf; reflexivity).
  apply filter_perm, Hp.
Qed.

(** C6 at a folder that holds [A.csv] and [a.csv].  The two names have the
    same sort key, the sort is stable, and so the result follows the order
    in which the directory was listed: the same folder contents listed in
    the other order give the other result. *)
Theorem list_input_files_follows_listing_on_ties :
  let w (listing : list str) :=
    mkWorld (fun p => p) (fun _ => true) (fun _ => listing) (fun _ => true)
      (fun _ _ => Ok placeholder) (fun _ => Ok []) (fun _ _ => Ok placeholder) in
  let l1 := [lit "A.csv"; lit "a.csv"] in
  let l2 := [lit "a.csv"; lit "A.csv"] in
  Permutation l1 l2
  /\ sort_key (lit "/d/A.csv") = sort_key (lit "/d/a.csv")
  /\ list_input_files (w l1) (lit "/d") = [lit "/d/A.csv"; lit "/d/a.csv"]
  /\ list_input_files (w l2) (lit "/d") = [lit "/d/a.csv"; lit "/d/A.csv"]
  /\ list_input_files (w l1) (lit "/d") <> list_input_files (w l2) (lit "/d").
Proof.
  split; [apply perm_swap|].
  repeat split; discriminate.
Qed.

(** ** Writing the workbook *)

Lemma ensure_column_spec (df : DataFrame) :
  ensure_column df
  = if writable df
    then Ok (if ncols df =? 0 then placeholder else df)
    else Raise ValueError.
Proof.
  unfold ensure_column, writable, setitem, nrows.
  destruct (ncols df =? 0) eqn:E; [|reflexivity].
  destruct df as [rows [|col cols]];
    [|apply Z.eqb_eq in E; unfold ncols in E; simpl in E; lia].
  destruct rows as [|rows]; reflexivity.
Qed.

Lemma writable_shape (df : DataFrame) :
  writable df = true <-> (ncols df = 0 -> nrows df = 0).
Proof.
  unfold writable; split.
  - intros H E; rewrite E in H; simpl in H; apply Z.eqb_eq, H.
  - intros H; destruct (ncols df =? 0) eqn:E; [|reflexivity].
    apply Z.eqb_eq in E; simpl; apply Z.eqb_eq, H, E.
Qed.

Section Sink.

Variables (w : World) (out_path : str).

(** The sheets the loop hands over are those of the first pairs, up to
    the first frame that cannot be handed over or that the sink refuses. *)
Lemma write_sheets_prefix (pairs : list (DataFrame * str))
    (written : list (str * DataFrame)) :
  exists k,
    written_sheets (fst (write_sheets w out_path pairs written))
    = firstn k (map handed pairs)
    /\ Forall (fun p => writable (fst p) = true) (firstn k pairs).
Proof.
  revert written; induction pairs as [|[df name] rest IH]; intros written.
  - exists O; split; [reflexivity | constructor].
  - cbn [write_sheets]; rewrite ensure_column_spec.
    destruct (writable df) eqn:Hw;
      [|exists O; split; [reflexivity | constructor]].
    cbn [bind app fst]; unfold call.
    destruct (df_to_excel w out_path written name
                (if ncols df =? 0 then placeholder else df)) as [[]|e].
    + destruct (IH (written
                    ++ [(name, if ncols df =? 0 then placeholder else df)]))
        as (k & Hk & Hf).
      exists (S k); cbn [bind fst app].
      destruct (write_sheets w out_path rest
                  (written
                   ++ [(name, if ncols df =? 0 then placeholder else df)]))
        as [t r].
      cbn [fst written_sheets firstn map] in *; rewrite Hk.
      split; [reflexivity | constructor; [exact Hw | exact Hf]].
    + exists 1%nat; cbn [bind fst written_sheets firstn map].
      split; [reflexivity | constructor; [exact Hw | constructor]].
Qed.

Lemma write_sheets_accepted (pairs : list (DataFrame * str))
    (written : list (str * DataFrame)) :
  (forall written name df, df_to_excel w out_path written name df = Ok tt) ->
  Forall (fun p => writable (fst p) = true) pairs ->
  write_sheets w out_path pairs written
  = (map (fun p => EvToExcel (fst (handed p)) (snd (handed p))) pairs, Ok tt).
Proof.
  intros Hs Hp; revert written; induction Hp as [|[df name] rest Hw _ IH];
    intros written; [reflexivity|].
  cbn [write_sheets]; rewrite ensure_column_spec; cbn [fst] in Hw.
  rewrite Hw; cbn [bind app]; unfold call; rewrite Hs, IH; reflexivity.
Qed.

Lemma written_sheets_handed (pairs : list (DataFrame * str)) :
  written_sheets
    (map (fun p => EvToExcel (fst (handed p)) (snd (handed p))) pairs)
  = map handed pairs.
Proof.
  induction pairs as [|p rest IH]; [reflexivity|].
  cbn [map written_sheets]; rewrite IH; destruct (handed p); reflexivity.
Qed.

Lemma written_sheets_app (t1 t2 : list event) :
  written_sheets (t1 ++ t2) = written_sheets t1 ++ written_sheets t2.
Proof.
  induction t1 as [|e t1 IH]; [reflexivity|].
  destruct e; simpl; rewrite IH; reflexivity.
Qed.

Lemma finally_fst {A : Type} (body : M A) (exit : list event -> M unit) :
  fst (finally body exit) = fst body ++ fst (exit (fst body)).
Proof.
  unfold finally; destruct body as [t r]; cbn [fst].
  destruct (exit t); reflexivity.
Qed.

(** The sheets [save_to_excel] hands over are those its loop hands over. *)
Lemma save_to_excel_written (dfs : list DataFrame) (sheet_names : list str) :
  written_sheets (fst (save_to_excel w dfs sheet_names out_path)) = []
  \/ written_sheets (fst (save_to_excel w dfs sheet_names out_path))
     = written_sheets
         (fst (write_sheets w out_path (combine dfs sheet_names) [])).
Proof.
  unfold save_to_excel.
  rewrite bind_fst, written_sheets_app.
  destruct (snd (makedirs w (dirname out_path))); [|left; reflexivity].
  rewrite bind_fst, written_sheets_app.
  destruct (snd (call (EvOpenWriter out_path) (pd_ExcelWriter w out_path)));
    [|left; reflexivity].
  right; rewrite bind_fst, written_sheets_app, finally_fst.
  rewrite written_sheets_app.
  assert (E : forall B (r : result B) (msg : str),
            written_sheets
              match r with
              | Ok _ => fst (log INFO msg)
              | Raise _ => []
              end = []) by (intros B [b|e] msg; reflexivity).
  rewrite E; cbn [makedirs call close_writer fst written_sheets app].
  rewrite !app_nil_r; reflexivity.
Qed.

Lemma save_to_excel_accepted (dfs : list DataFrame) (sheet_names : list str) :
  sink_accepts w out_path ->
  Forall (fun p => writable (fst p) = true) (combine dfs sheet_names) ->
  combine dfs sheet_names <> [] ->
  save_to_excel w dfs sheet_names out_path
  = (EvMakedirs (dirname out_path)
     :: EvOpenWriter out_path
     :: map (fun p => EvToExcel (fst (handed p)) (snd (handed p)))
          (combine dfs sheet_names)
     ++ [EvCloseWriter out_path;
         EvLog INFO (lit "Saved merged workbook -> " ++ out_path)],
     Ok tt).
Proof.
  intros (Hd & Hm & Ho & Ht & Hc) Hp Hne.
  unfold save_to_excel, makedirs, call.
  destruct (dirname out_path) as [|c d] eqn:Ed; [congruence|].
  rewrite Hm, Ho, (write_sheets_accepted _ _ Ht Hp).
  unfold finally, close_writer, call; rewrite written_sheets_handed.
  destruct (map handed (combine dfs sheet_names)) as [|x l] eqn:Em;
    [apply map_eq_nil in Em; congruence|].
  rewrite Hc; cbn [bind app fst snd log emit]; rewrite <- app_assoc.
  reflexivity.
Qed.

End Sink.

(** C8.  The sheets [save_to_excel] hands to the sink are, in order and
    under their names, those of the first pairs of a table and a name:
    a table with a column goes as it is, and a table without column as
    the placeholder table, which has the single column ["(empty)"] and no
    row.  The tables handed over each have a column or have no row (for a
    table with rows and no column the assignment of the placeholder
    column raises, and the loop ends before the sink sees it).  When
    every table is of that kind and the output side accepts what is asked
    of it, every pair is handed over, and with at least one pair
    [save_to_excel] returns normally. *)
Theorem save_to_excel_sheets (w : World) (dfs : list DataFrame)
    (sheet_names : list str) (out_path : str) :
  (exists k,
     written_sheets (fst (save_to_excel w dfs sheet_names out_path))
     = firstn k
         (map (fun p =>
                 (snd p, if ncols (fst p) =? 0 then placeholder else fst p))
            (combine dfs sheet_names))
     /\ Forall (fun p => ncols (fst p) = 0 -> nrows (fst p) = 0)
          (firstn k (combine dfs sheet_names)))
  /\ (sink_accepts w out_path ->
      Forall (fun p => ncols (fst p) = 0 -> nrows (fst p) = 0)
        (combine dfs sheet_names) ->
      combine dfs sheet_names <> [] ->
      snd (save_to_excel w dfs sheet_names out_path) = Ok tt
      /\ written_sheets (fst (save_to_excel w dfs sheet_names out_path))
         = map (fun p =>
                  (snd p, if ncols (fst p) =? 0 then placeholder else fst p))
             (combine dfs sheet_names))
  /\ df_columns placeholder = [(lit "(empty)", [])]
  /\ ncols placeholder = 1
  /\ nrows placeholder = 0.
Proof.
  split; [|split; [|repeat split]].
  - destruct (save_to_excel_written w out_path dfs sheet_names) as [-> | ->].
    + exists O; split; [reflexivity | constructor].
    + destruct (write_sheets_prefix w out_path (combine dfs sheet_names) [])
        as (k & Hk & Hf).
      exists k; split; [exact Hk|].
      eapply Forall_impl; [|exact Hf].
      intros p Hp; apply writable_shape, Hp.
  - intros Hs Hp Hne.
    assert (Hp' : Forall (fun p => writable (fst p) = true)
                    (combine dfs sheet_names)).
    { eapply Forall_impl; [|exact Hp].
      intros p H; apply writable_shape, H. }
    rewrite (save_to_excel_accepted w out_path dfs sheet_names Hs Hp' Hne).
    cbn [fst snd written_sheets]; split; [reflexivity|].
    rewrite written_sheets_app, written_sheets_handed; cbn [written_sheets].
    rewrite app_nil_r; reflexivity.
Qed.

Lemma save_to_excel_sheets_witness :
  let frame := mkDataFrame [(lit "c", [CellInt 1])] in
  let empty := mkDataFrame [] in
  let rows_only := Frame 3 [] in
  let w := mkWorld (fun p => p) (fun _ => true) (fun _ => [])
             (fun _ => true) (fun _ _ => Ok frame) (fun _ => Ok [])
             (fun _ _ => Ok frame) in
  (snd (save_to_excel w [frame; empty] [lit "A"; lit "B"] (lit "/d/out.xlsx"))
   = Ok tt
   /\ written_sheets
        (fst (save_to_excel w [frame; empty] [lit "A"; lit "B"]
                (lit "/d/out.xlsx")))
      = [(lit "A", frame); (lit "B", placeholder)])
  /\ written_sheets
       (fst (save_to_excel w [frame; rows_only; frame]
               [lit "A"; lit "B"; lit "C"] (lit "/d/out.xlsx")))
     = [(lit "A", frame)]
  /\ snd (save_to_excel w [frame; rows_only; frame]
            [lit "A"; lit "B"; lit "C"] (lit "/d/out.xlsx"))
     = Raise ValueError.
Proof.
  intros frame empty rows_only w.
  destruct (save_to_excel_sheets w [frame; empty] [lit "A"; lit "B"]
              (lit "/d/out.xlsx")) as (_ & A & _).
  split; [|split; reflexivity].
  apply A.
  - repeat split; discriminate.
  - repeat constructor; intros H; try discriminate H; reflexivity.
  - discriminate.
Defined.

(** ** Reading the sources *)

Section Reading.

Variable w : World.

Lemma read_csv_like_cases (path : str) :
  (pd_read_csv w path UTF8 = Raise UnicodeDecodeError
   /\ filter is_read (fst (read_csv_like w path))
      = [EvReadCsv path UTF8; EvReadCsv path GBK]
   /\ snd (read_csv_like w path) = pd_read_csv w path GBK)
  \/ (pd_read_csv w path UTF8 <> Raise UnicodeDecodeError
      /\ filter is_read (fst (read_csv_like w path)) = [EvReadCsv path UTF8]
      /\ snd (read_csv_like w path) = pd_read_csv w path UTF8).
Proof.
  unfold read_csv_like, read_csv, call, except_decode, bind, log, emit.
  destruct (pd_read_csv w path UTF8) as [df|[| |code|kind]];
    try (right; split; [discriminate | split; reflexivity]).
  left; split; [reflexivity|].
  destruct (pd_read_csv w path GBK); split; reflexivity.
Qed.

Lemma read_csv_like_no_write (path : str) :
  Forall (fun e => is_write e = false) (fst (read_csv_like w path)).
Proof.
  unfold read_csv_like, read_csv, call, except_decode, bind, log, emit.
  destruct (pd_read_csv w path UTF8) as [df|[| |code|kind]];
    repeat constructor.
Qed.

Lemma read_sheets_no_write (path : str) (sheet_names : list str)
    (items : list (str * DataFrame)) :
  Forall (fun e => is_write e = false)
    (fst (read_sheets w path sheet_names items)).
Proof.
  revert items; induction sheet_names as [|sheet rest IH]; intros items;
    cbn [read_sheets]; [constructor|].
  apply bind_trace_Forall; [repeat constructor | intros df _; apply IH].
Qed.

Lemma collect_file_no_write (path : str) (acc : tables) :
  Forall (fun e => is_write e = false) (fst (collect_file w path acc)).
Proof.
  unfold collect_file.
  destruct (mem (lower (snd (splitext (basename path)))) EXCEL_EXTS).
  - apply bind_trace_Forall.
    + unfold read_excel_all_sheets; apply bind_trace_Forall;
        [repeat constructor | intros; apply read_sheets_no_write].
    + intros sheets _; destruct sheets as [|[name df] [|item rest]];
        repeat constructor.
  - destruct (mem (lower (snd (splitext (basename path)))) CSV_EXTS);
      [|constructor].
    apply bind_trace_Forall; [apply read_csv_like_no_write|].
    intros df _; repeat constructor.
Qed.

Lemma collect_files_no_write (files : list str) (acc : tables) :
  Forall (fun e => is_write e = false) (fst (collect_files w files acc)).
Proof.
  revert acc; induction files as [|path rest IH]; intros acc;
    cbn [collect_files]; [constructor|].
  apply bind_trace_Forall; [apply collect_file_no_write | intros; apply IH].
Qed.

Lemma collect_files_failed (files : list str) (path : str) :
  In path files ->
  (forall acc, failed (snd (collect_file w path acc)) = true) ->
  forall acc, failed (snd (collect_files w files acc)) = true.
Proof.
  intros Hin Hfail; induction files as [|p rest IH]; [destruct Hin|].
  intros acc; cbn [collect_files].
  destruct (snd (collect_file w p acc)) as [acc'|e] eqn:E.
  - rewrite (bind_snd_ok _ _ acc' E).
    destruct Hin as [-> | Hin]; [|apply IH, Hin].
    specialize (Hfail acc); rewrite E in Hfail; discriminate.
  - rewrite (bind_snd_raise _ _ e E); reflexivity.
Qed.

Lemma csv_ext_not_excel (ext : str) :
  mem ext CSV_EXTS = true -> mem ext EXCEL_EXTS = false.
Proof.
  intros H; apply mem_In in H; simpl in H.
  destruct H as [<- | [<- | [<- | []]]]; reflexivity.
Qed.

Lemma collect_file_csv (path : str) (acc : tables) :
  mem (lower (snd (splitext (basename path)))) CSV_EXTS = true ->
  snd (collect_file w path acc)
  = match snd (read_csv_like w path) with
    | Ok df => Ok (fst acc ++ [df],
                   snd acc ++ [fst (splitext (basename path))])
    | Raise e => Raise e
    end.
Proof.
  intros H; unfold collect_file.
  rewrite (csv_ext_not_excel _ H), H.
  destruct (snd (read_csv_like w path)) as [df|e] eqn:E.
  - rewrite (bind_snd_ok _ _ df E); reflexivity.
  - rewrite (bind_snd_raise _ _ e E); reflexivity.
Qed.

Lemma failed_run_writes_nothing (args : Args) (path : str) :
  isdir w (abspath w (input_folder args)) = true ->
  In path (list_input_files w (abspath w (input_folder args))) ->
  (forall acc, failed (snd (collect_file w path acc)) = true) ->
  failed (snd (main w args)) = true
  /\ Forall (fun e => is_write e = false) (fst (main w args)).
Proof.
  intros Hdir Hin Hfail; unfold main; rewrite Hdir; cbn [negb].
  set (folder := abspath w (input_folder args)) in *.
  assert (Hc : failed (snd (collect_tables w folder)) = true
               /\ Forall (fun e => is_write e = false)
                    (fst (collect_tables w folder))).
  { unfold collect_tables.
    destruct (list_input_files w folder) as [|p rest] eqn:E; [destruct Hin|].
    rewrite <- E in *.
    pose proof (collect_files_failed _ path Hin Hfail ([], [])) as Hf.
    split; [apply bind_failed, Hf|].
    rewrite bind_fst.
    destruct (snd (collect_files w (list_input_files w folder) ([], [])));
      [discriminate|].
    rewrite app_nil_r; apply collect_files_no_write. }
  destruct Hc as [Hf Hw]; split; [apply bind_failed, Hf|].
  rewrite bind_fst.
  destruct (snd (collect_tables w folder)); [discriminate|].
  rewrite app_nil_r; exact Hw.
Qed.

End Reading.

(** C7, as the code has it.  [read_csv_like] calls the reader with UTF-8
    first.  When that call raises a decoding error it calls the reader
    once more, with GBK, and ends as that second call ends; in every
    other case it makes no second call and ends as the first call ends.
    So the read fails exactly when the first call fails otherwise than
    by a decoding error, or fails by a decoding error and the GBK call
    fails as well.  A delimited file of the run whose read fails makes the
    whole run fail, and nothing is handed to the sink. *)
Theorem read_csv_like_policy (w : World) (path : str) :
  let first := pd_read_csv w path UTF8 in
  let second := pd_read_csv w path GBK in
  let run := read_csv_like w path in
  (first = Raise UnicodeDecodeError ->
     filter is_read (fst run) = [EvReadCsv path UTF8; EvReadCsv path GBK]
     /\ snd run = second)
  /\ (first <> Raise UnicodeDecodeError ->
        filter is_read (fst run) = [EvReadCsv path UTF8]
        /\ snd run = first)
  /\ (failed (snd run) = true <->
      (failed first = true /\ first <> Raise UnicodeDecodeError)
      \/ (first = Raise UnicodeDecodeError /\ failed second = true))
  /\ (forall args,
        isdir w (abspath w (input_folder args)) = true ->
        In path (list_input_files w (abspath w (input_folder args))) ->
        mem (lower (snd (splitext (basename path)))) CSV_EXTS = true ->
        failed (snd run) = true ->
        failed (snd (main w args)) = true
        /\ Forall (fun e => is_write e = false) (fst (main w args))).
Proof.
  intros first second run.
  pose proof (read_csv_like_cases w path) as H; fold first second run in H.
  split; [|split; [|split]].
  - intros E; destruct H as [(_ & A & B) | (N & _)]; [split; assumption|].
    contradiction.
  - intros N; destruct H as [(E & _) | (_ & A & B)]; [contradiction|].
    split; assumption.
  - destruct H as [(E & _ & B) | (N & _ & B)]; rewrite B; split.
    + intros F; right; split; assumption.
    + intros [[_ N] | [_ F]]; [contradiction | exact F].
    + intros F; left; split; assumption.
    + intros [[F _] | [E _]]; [exact F | contradiction].
  - intros args Hdir Hin Hext Hfail.
    apply (failed_run_writes_nothing w args path Hdir Hin).
    intros acc; rewrite (collect_file_csv w path acc Hext).
    fold run; destruct (snd run); [discriminate | reflexivity].
Qed.

Lemma read_csv_like_policy_witness :
  let frame := mkDataFrame [(lit "c", [CellInt 1])] in
  let w := mkWorld (fun p => p) (fun _ => true)
             (fun _ => [lit "n.txt"; lit "ok.csv"])
             (fun _ => true)
             (fun p enc => if str_eqb p (lit "/d/n.txt")
                           then Raise UnicodeDecodeError else Ok frame)
             (fun _ => Ok [])
             (fun _ _ => Ok frame) in
  let args := mkArgs (lit "/d") (lit "out.xlsx") false in
  (filter is_read (fst (read_csv_like w (lit "/d/n.txt")))
   = [EvReadCsv (lit "/d/n.txt") UTF8; EvReadCsv (lit "/d/n.txt") GBK]
   /\ snd (read_csv_like w (lit "/d/n.txt")) = Raise UnicodeDecodeError)
  /\ (filter is_read (fst (read_csv_like w (lit "/d/ok.csv")))
      = [EvReadCsv (lit "/d/ok.csv") UTF8]
      /\ snd (read_csv_like w (lit "/d/ok.csv")) = Ok frame)
  /\ (failed (snd (main w args)) = true
      /\ Forall (fun e => is_write e = false) (fst (main w args))).
Proof.
  intros frame w args.
  destruct (read_csv_like_policy w (lit "/d/n.txt")) as (A & _ & _ & D).
  destruct (read_csv_like_policy w (lit "/d/ok.csv")) as (_ & B & _ & _).
  split; [apply A; reflexivity|].
  split; [apply B; discriminate|].
  apply (D args); try reflexivity.
  left; reflexivity.
Defined.

(** C7 as stated fails: when the reader raises an error that is not a
    decoding error on the first call (here the error pandas raises on an
    empty file), the read fails after that single call; not both attempts
    failed, for no second attempt was made. *)
Lemma read_fails_after_one_attempt :
  let w := mkWorld (fun p => p) (fun _ => true)
             (fun _ => [lit "empty.csv"])
             (fun _ => true)
             (fun _ _ => Raise (OtherError (lit "EmptyDataError")))
             (fun _ => Ok [])
             (fun _ _ => Ok placeholder) in
  let run := read_csv_like w (lit "/d/empty.csv") in
  failed (snd run) = true
  /\ filter is_read (fst run) = [EvReadCsv (lit "/d/empty.csv") UTF8]
  /\ failed_attempts w (fst run) = 1%nat
  /\ ~ (failed (snd run) = true <-> failed_attempts w (fst run) = 2%nat).
Proof.
  repeat split; intros [H _]; specialize (H eq_refl); discriminate H.
Qed.

Lemma read_sheets_spec (w : World) (path : str) (sheet_names : list str) :
  forall items sheets,
    snd (read_sheets w path sheet_names items) = Ok sheets ->
    exists read,
      sheets = items ++ read
      /\ map fst read = sheet_names
      /\ Forall (fun item => pd_read_excel w path (fst item) = Ok (snd item))
           read.
Proof.
  induction sheet_names as [|sheet rest IH]; intros items sheets H;
    cbn [read_sheets] in H.
  - inversion H; subst; exists []; rewrite app_nil_r.
    repeat split; constructor.
  - destruct (pd_read_excel w path sheet) as [df|e] eqn:E.
    + rewrite (bind_snd_ok _ _ df) in H by reflexivity.
      apply IH in H; destruct H as (read & -> & Hn & Hr).
      exists ((sheet, df) :: read); rewrite <- app_assoc.
      repeat split; [simpl; f_equal; exact Hn|].
      constructor; [exact E | exact Hr].
    + rewrite (bind_snd_raise _ _ e) in H by reflexivity; discriminate.
Qed.

Lemma read_excel_all_sheets_spec (w : World) (path : str)
    (sheets : list (str * DataFrame)) :
  snd (read_excel_all_sheets w path) = Ok sheets ->
  pd_ExcelFile w path = Ok (map fst sheets)
  /\ Forall (fun item => pd_read_excel w path (fst item) = Ok (snd item))
       sheets.
Proof.
  unfold read_excel_all_sheets; intros H.
  destruct (pd_ExcelFile w path) as [sheet_names|e] eqn:E.
  - rewrite (bind_snd_ok _ _ sheet_names) in H by reflexivity.
    apply read_sheets_spec in H; destruct H as (read & -> & Hn & Hr).
    simpl; rewrite Hn; split; [reflexivity | exact Hr].
  - rewrite (bind_snd_raise _ _ e) in H by reflexivity; discriminate.
Qed.

Lemma append_entries (sheets : list (str * DataFrame)) (acc : tables) :
  fold_left (fun a item => append_entry a (fst item) (snd item)) sheets acc
  = (fst acc ++ map snd sheets, snd acc ++ map fst sheets).
Proof.
  revert acc; induction sheets as [|item rest IH]; intros acc; simpl.
  - rewrite !app_nil_r; destruct acc; reflexivity.
  - rewrite IH; unfold append_entry; simpl; rewrite <- !app_assoc.
    reflexivity.
Qed.

Lemma collect_file_excel (w : World) (path : str) (acc : tables) :
  mem (lower (snd (splitext (basename path)))) EXCEL_EXTS = true ->
  snd (collect_file w path acc)
  = match snd (read_excel_all_sheets w path) with
    | Ok [(_, df)] =>
        Ok (fst acc ++ [df], snd acc ++ [fst (splitext (basename path))])
    | Ok sheets => Ok (fst acc ++ map snd sheets, snd acc ++ map fst sheets)
    | Raise e => Raise e
    end.
Proof.
  intros H; unfold collect_file; rewrite H.
  destruct (snd (read_excel_all_sheets w path)) as [sheets|e] eqn:E.
  - rewrite (bind_snd_ok _ _ sheets E).
    destruct sheets as [|[name df] [|item rest]]; cbn [bind log emit ret snd];
      rewrite ?append_entries; reflexivity.
  - rewrite (bind_snd_raise _ _ e E); reflexivity.
Qed.

Lemma collect_file_lengths (w : World) (path : str) (acc acc' : tables) :
  snd (collect_file w path acc) = Ok acc' ->
  length (fst acc) = length (snd acc) ->
  length (fst acc') = length (snd acc').
Proof.
  intros H L.
  destruct (mem (lower (snd (splitext (basename path)))) EXCEL_EXTS) eqn:E1;
    [|destruct (mem (lower (snd (splitext (basename path)))) CSV_EXTS) eqn:E2].
  - rewrite (collect_file_excel w path acc E1) in H.
    destruct (snd (read_excel_all_sheets w path))
      as [[|[name df] [|item rest]]|e];
      inversion H; subst; cbn [fst snd];
      rewrite !length_app, L; cbn [length];
      rewrite ?length_map; reflexivity.
  - rewrite (collect_file_csv w path acc E2) in H.
    destruct (snd (read_csv_like w path)); inversion H; subst; cbn [fst snd].
    rewrite !length_app, L; reflexivity.
  - unfold collect_file in H; rewrite E1, E2 in H.
    inversion H; subst; exact L.
Qed.

Lemma collect_files_lengths (w : World) (files : list str) :
  forall acc acc',
    snd (collect_files w files acc) = Ok acc' ->
    length (fst acc) = length (snd acc) ->
    length (fst acc') = length (snd acc').
Proof.
  induction files as [|path rest IH]; intros acc acc' H L;
    cbn [collect_files] in H.
  - inversion H; subst; exact L.
  - destruct (snd (collect_file w path acc)) as [acc1|e] eqn:E.
    + rewrite (bind_snd_ok _ _ acc1 E) in H.
      eapply IH; [exact H|].
      eapply collect_file_lengths; eassumption.
    + rewrite (bind_snd_raise _ _ e E) in H; discriminate.
Qed.

(** The invariant of the data model: a run that gets as far as the sink
    hands it as many names as tables. *)
Lemma collect_tables_lengths (w : World) (folder : str) (r : tables) :
  snd (collect_tables w folder) = Ok r -> length (fst r) = length (snd r).
Proof.
  unfold collect_tables.
  destruct (list_input_files w folder) as [|p rest]; [discriminate|].
  destruct (snd (collect_files w (p :: rest) ([], []))) as [acc|e] eqn:E.
  - rewrite (bind_snd_ok _ _ acc E).
    pose proof (collect_files_lengths w _ _ _ E eq_refl) as L.
    destruct (log_renames
                (combine (snd acc)
                   (uniquify_and_truncate (snd acc) MAX_SHEETNAME_LEN)))
      as [t [[]|e]] eqn:El; cbn [bind ret snd]; intros H; inversion H; subst.
    cbn [fst snd]; rewrite L.
    destruct (uniquify_fuel_spec MAX_SHEETNAME_LEN (snd acc)) as (_ & Hd & _).
    eapply Forall2_length; exact Hd.
  - rewrite (bind_snd_raise _ _ e E); discriminate.
Qed.

(** C4.  What one source file adds to the list of tables and to the list
    of proposed names.  A delimited file that reads as a table adds that
    table under the file's stem.  A workbook that reads as exactly one
    sheet adds that sheet's table under the file's stem, whatever the
    sheet is called.  A workbook that reads as several sheets adds their
    tables under the sheets' own names, table by table in the order of the
    workbook's list of sheet names. *)
Theorem extraction_names (w : World) (path : str) (acc : tables) :
  let stem := fst (splitext (basename path)) in
  let ext := lower (snd (splitext (basename path))) in
  (mem ext CSV_EXTS = true ->
     forall df, snd (read_csv_like w path) = Ok df ->
       snd (collect_file w path acc)
       = Ok (fst acc ++ [df], snd acc ++ [stem]))
  /\ (mem ext EXCEL_EXTS = true ->
        forall sheets, snd (read_excel_all_sheets w path) = Ok sheets ->
          pd_ExcelFile w path = Ok (map fst sheets)
          /\ Forall (fun item =>
                       pd_read_excel w path (fst item) = Ok (snd item))
               sheets
          /\ (forall name df, sheets = [(name, df)] ->
                snd (collect_file w path acc)
                = Ok (fst acc ++ [df], snd acc ++ [stem]))
          /\ ((1 < length sheets)%nat ->
                snd (collect_file w path acc)
                = Ok (fst acc ++ map snd sheets,
                      snd acc ++ map fst sheets))).
Proof.
  intros stem ext; split.
  - intros Hext df Hdf.
    rewrite (collect_file_csv w path acc Hext), Hdf; reflexivity.
  - intros Hext sheets Hs.
    destruct (read_excel_all_sheets_spec w path sheets Hs) as [Hnames Hread].
    split; [exact Hnames | split; [exact Hread|]].
    rewrite (collect_file_excel w path acc Hext), Hs; split.
    + intros name df ->; reflexivity.
    + intros Hlen.
      destruct sheets as [|[name df] [|item rest]]; simpl in Hlen; try lia.
      reflexivity.
Qed.

Lemma extraction_names_witness :
  let frame := mkDataFrame [(lit "c", [CellInt 1])] in
  let w := mkWorld (fun p => p) (fun _ => true)
             (fun _ => [lit "a.csv"; lit "one.xlsx"; lit "many.xls"])
             (fun _ => true)
             (fun _ _ => Ok frame)
             (fun p => if str_eqb p (lit "/d/one.xlsx")
                       then Ok [lit "Data"] else Ok [lit "Q1"; lit "Q2"])
             (fun _ _ => Ok frame) in
  snd (collect_file w (lit "/d/a.csv") ([], [])) = Ok ([frame], [lit "a"])
  /\ snd (collect_file w (lit "/d/one.xlsx") ([], []))
     = Ok ([frame], [lit "one"])
  /\ snd (collect_file w (lit "/d/many.xls") ([], []))
     = Ok ([frame; frame], [lit "Q1"; lit "Q2"]).
Proof.
  intros frame w.
  destruct (extraction_names w (lit "/d/a.csv") ([], [])) as [A _].
  destruct (extraction_names w (lit "/d/one.xlsx") ([], [])) as [_ B].
  destruct (extraction_names w (lit "/d/many.xls") ([], [])) as [_ C].
  split; [exact (A eq_refl frame eq_refl)|].
  destruct (B eq_refl [(lit "Data", frame)] eq_refl) as (_ & _ & B1 & _).
  destruct (C eq_refl [(lit "Q1", frame); (lit "Q2", frame)] eq_refl)
    as (_ & _ & _ & C2).
  split; [exact (B1 (lit "Data") frame eq_refl)|].
  apply C2; simpl; lia.
Defined.

(** ** The run *)

(** C9.  When no entry of the input folder is a regular file with a
    supported extension, the run ends with [SystemExit(1)], exit status 1,
    having called no reader and nothing of the sink: no extraction, no
    writing, no output file. *)
Theorem no_supported_file_aborts (w : World) (args : Args) :
  let folder := abspath w (input_folder args) in
  (forall name, In name (listdir w folder) ->
     isfile w (path_join folder name) = false
     \/ mem (lower (snd (splitext name))) (EXCEL_EXTS ++ CSV_EXTS) = false) ->
  snd (main w args) = Raise (SystemExit 1)
  /\ exit_status (snd (main w args)) = 1
  /\ Forall (fun e => is_read e = false /\ is_write e = false)
       (fst (main w args)).
Proof.
  intros folder H.
  assert (E : list_input_files w folder = []).
  { rewrite list_input_files_filter, filter_none; [reflexivity|].
    intros name Hn; unfold selected; apply andb_false_iff, H, Hn. }
  unfold main; fold folder.
  destruct (isdir w folder); simpl.
  - unfold collect_tables; rewrite E; simpl.
    repeat split; repeat constructor.
  - repeat split; repeat constructor.
Qed.

Lemma no_supported_file_aborts_witness :
  let w := mkWorld (fun p => p) (fun _ => true)
             (fun _ => [lit "notes.doc"; lit "sub.csv"; lit ".csv"])
             (fun p => negb (str_eqb p (lit "/data/sub.csv")))
             (fun _ _ => Raise (OtherError (lit "unused")))
             (fun _ => Raise (OtherError (lit "unused")))
             (fun _ _ => Raise (OtherError (lit "unused"))) in
  let args := mkArgs (lit "/data") (lit "merged.xlsx") false in
  (forall name, In name (listdir w (abspath w (input_folder args))) ->
     isfile w (path_join (abspath w (input_folder args)) name) = false
     \/ mem (lower (snd (splitext name))) (EXCEL_EXTS ++ CSV_EXTS) = false)
  /\ snd (main w args) = Raise (SystemExit 1)
  /\ exit_status (snd (main w args)) = 1
  /\ Forall (fun e => is_read e = false /\ is_write e = false)
       (fst (main w args)).
Proof.
  intros w args.
  assert (H : forall name, In name (listdir w (abspath w (input_folder args))) ->
     isfile w (path_join (abspath w (input_folder args)) name) = false
     \/ mem (lower (snd (splitext name))) (EXCEL_EXTS ++ CSV_EXTS) = false).
  { intros name [<- | [<- | [<- | []]]];
      [right | left | right]; reflexivity. }
  split; [exact H | exact (no_supported_file_aborts w args H)].
Defined.

(** ** The normal form of a sanitised name *)

Lemma rstrip_nil_all_space (s : str) : rstrip s = [] -> all_space s = true.
Proof.
  induction s as [|c t IH]; [reflexivity|].
  rewrite rstrip_cons.
  destruct (all_space (c :: t)); [reflexivity | discriminate].
Qed.

Lemma no_trailing_ws_rstrip (s : str) : no_trailing_ws (rstrip s) = true.
Proof.
  induction s as [|c t IH]; [reflexivity|].
  rewrite rstrip_cons.
  destruct (all_space (c :: t)) eqn:E; [reflexivity|].
  cbn [no_trailing_ws].
  destruct (rstrip t) as [|d r] eqn:Er; [|exact IH].
  apply rstrip_nil_all_space in Er; simpl in E; rewrite Er, andb_true_r in E.
  rewrite E; reflexivity.
Qed.

Lemma no_trailing_ws_not_all_space (s : str) :
  no_trailing_ws s = true -> s <> [] -> all_space s = false.
Proof.
  induction s as [|c t IH]; intros H Hne; [congruence|].
  cbn [no_trailing_ws] in H; simpl.
  destruct t as [|d r].
  - destruct (is_space c); [discriminate | reflexivity].
  - rewrite IH by (auto; discriminate); apply andb_false_r.
Qed.

Lemma rstrip_fixed (s : str) : no_trailing_ws s = true -> rstrip s = s.
Proof.
  induction s as [|c t IH]; intros H; [reflexivity|].
  rewrite rstrip_cons, (no_trailing_ws_not_all_space (c :: t) H)
    by discriminate.
  cbn [no_trailing_ws] in H; destruct t as [|d r]; [reflexivity|].
  rewrite IH by exact H; reflexivity.
Qed.

Lemma lstrip_fixed (s : str) : starts_with_non_space s = true -> lstrip s = s.
Proof.
  destruct s as [|c t]; simpl; [discriminate|].
  destruct (is_space c); [discriminate | reflexivity].
Qed.

Lemma lstrip_starts (s : str) :
  lstrip s <> [] -> starts_with_non_space (lstrip s) = true.
Proof.
  induction s as [|c t IH]; simpl; [congruence|].
  destruct (is_space c) eqn:E; [exact IH|].
  intros _; simpl; rewrite E; reflexivity.
Qed.

Lemma rstrip_starts (s : str) :
  starts_with_non_space s = true ->
  starts_with_non_space (rstrip s) = true.
Proof.
  destruct s as [|c t]; [discriminate|]; simpl; intros H.
  rewrite rstrip_cons; simpl.
  destruct (is_space c) eqn:E; [discriminate|]; simpl; rewrite E; reflexivity.
Qed.

Lemma strip_shape (s : str) :
  strip s = []
  \/ (starts_with_non_space (strip s) = true
      /\ no_trailing_ws (strip s) = true).
Proof.
  unfold strip.
  destruct (lstrip s) as [|c t] eqn:E; [left; reflexivity|].
  right; split; [|apply no_trailing_ws_rstrip].
  apply rstrip_starts; rewrite <- E; apply lstrip_starts; rewrite E.
  discriminate.
Qed.

Lemma sub_ws_runs_head (s : str) :
  no_trailing_ws s = true -> s <> [] ->
  starts_with_non_space (sub_ws_runs true s) = true.
Proof.
  induction s as [|c t IH]; intros H Hne; [congruence|].
  cbn [no_trailing_ws] in H; cbn [sub_ws_runs].
  destruct (is_space c) eqn:E.
  - destruct t as [|d r]; [discriminate|].
    apply IH; [exact H | discriminate].
  - simpl; rewrite E; reflexivity.
Qed.

Lemma single_spaced_sub_ws_runs (b : bool) (s : str) :
  no_trailing_ws s = true -> single_spaced (sub_ws_runs b s) = true.
Proof.
  revert b; induction s as [|c t IH]; intros b H; [reflexivity|].
  cbn [no_trailing_ws] in H; cbn [sub_ws_runs].
  destruct (is_space c) eqn:E.
  - destruct t as [|d r]; [discriminate|].
    destruct b; [apply IH, H|].
    cbn [single_spaced]; rewrite space_is_space.
    rewrite (sub_ws_runs_head (d :: r) H) by discriminate.
    rewrite (IH true H); reflexivity.
  - cbn [single_spaced]; rewrite E; simpl.
    destruct t as [|d r]; [reflexivity | apply IH, H].
Qed.

Lemma forallb_legal (s : str) :
  forallb (fun c => negb (is_illegal c)) s = true <-> legal s.
Proof.
  unfold legal; rewrite forallb_forall, Forall_forall.
  split; intros H c Hc; specialize (H c Hc);
    destruct (is_illegal c); simpl in *; congruence.
Qed.

Lemma is_clean_sanitize_sheet_name (name : str) :
  is_clean (sanitize_sheet_name name) = true.
Proof.
  pose proof (sanitize_sheet_name_legal name) as Hl.
  apply forallb_legal in Hl.
  unfold is_clean; rewrite Hl, andb_true_r.
  unfold sanitize_sheet_name, collapse_ws in *.
  destruct (strip_shape (sub_illegal name)) as [-> | [Hs Ht]];
    [reflexivity|].
  destruct (strip (sub_illegal name)) as [|c t] eqn:E; [discriminate|].
  assert (Hc : is_space c = false)
    by (simpl in Hs; destruct (is_space c); [discriminate | reflexivity]).
  cbn [sub_ws_runs]; rewrite Hc; cbn [or_default starts_with_non_space].
  rewrite Hc; cbn [negb andb single_spaced]; rewrite Hc; cbn [andb].
  cbn [no_trailing_ws] in Ht.
  destruct t as [|d r]; [reflexivity|].
  apply single_spaced_sub_ws_runs, Ht.
Qed.

Lemma single_spaced_no_trailing (s : str) :
  single_spaced s = true -> no_trailing_ws s = true.
Proof.
  induction s as [|c t IH]; [reflexivity|].
  cbn [single_spaced no_trailing_ws]; intros H.
  apply andb_true_iff in H; destruct H as [Hc Ht].
  destruct t as [|d r]; [|apply IH, Ht].
  destruct (is_space c); [|reflexivity].
  simpl in Hc; rewrite andb_false_r in Hc; discriminate.
Qed.

Lemma sub_ws_runs_fixed (s : str) :
  single_spaced s = true -> sub_ws_runs false s = s.
Proof.
  induction s as [|c t IH]; [reflexivity|].
  cbn [single_spaced sub_ws_runs]; intros H.
  apply andb_true_iff in H; destruct H as [Hc Ht].
  specialize (IH Ht).
  destruct (is_space c) eqn:E; [|rewrite IH; reflexivity].
  apply andb_true_iff in Hc; destruct Hc as [Hc Hs].
  apply char_eqb_eq in Hc; subst c.
  destruct t as [|d r]; [discriminate|].
  simpl in Hs; cbn [sub_ws_runs] in IH |- *.
  destruct (is_space d); [discriminate|].
  rewrite IH; reflexivity.
Qed.

Lemma sub_illegal_fixed (s : str) : legal s -> sub_illegal s = s.
Proof.
  unfold sub_illegal; induction 1 as [|c t Hc _ IH]; simpl; [reflexivity|].
  rewrite Hc, IH; reflexivity.
Qed.

Lemma sanitize_sheet_name_fixed (s : str) :
  is_clean s = true -> sanitize_sheet_name s = s.
Proof.
  unfold is_clean; intros H.
  apply andb_true_iff in H; destruct H as [H Hs].
  apply andb_true_iff in H; destruct H as [Hh Hl].
  apply forallb_legal in Hl.
  unfold sanitize_sheet_name, strip, collapse_ws.
  rewrite (sub_illegal_fixed s Hl), (lstrip_fixed s Hh).
  rewrite (rstrip_fixed s (single_spaced_no_trailing s Hs)).
  rewrite (sub_ws_runs_fixed s Hs).
  destruct s; [discriminate | reflexivity].
Qed.

(** X1.  The names [sanitize_sheet_name] leaves as they are are exactly
    the names in normal form: not empty, free of the seven illegal
    characters, white space only as a single space between two other
    characters. *)
Theorem sanitize_sheet_name_fixed_points (s : str) :
  sanitize_sheet_name s = s <-> is_clean s = true.
Proof.
  split; [|apply sanitize_sheet_name_fixed].
  intros E; rewrite <- E; apply is_clean_sanitize_sheet_name.
Qed.

(** X2.  Every result of [sanitize_sheet_name] is in normal form, and
    sanitising it once more changes nothing. *)
Theorem sanitize_sheet_name_idempotent (name : str) :
  is_clean (sanitize_sheet_name name) = true
  /\ sanitize_sheet_name (sanitize_sheet_name name) = sanitize_sheet_name name.
Proof.
  split; [apply is_clean_sanitize_sheet_name|].
  apply sanitize_sheet_name_fixed, is_clean_sanitize_sheet_name.
Qed.

(** ** More on the resolver *)

Lemma uniquify_loop_extends (fuel : nat) (max_len : Z) (names : list str) :
  forall seen result r,
    uniquify_loop fuel names max_len seen result = Some r ->
    exists out, r = result ++ out /\ length out = length names.
Proof.
  induction names as [|raw rest IH]; intros seen result r H; simpl in H.
  - inversion H; subst; exists []; rewrite app_nil_r; split; reflexivity.
  - destruct (resolve_one fuel seen raw max_len) as [c|]; [|discriminate].
    apply IH in H; destruct H as (out & -> & L).
    exists (c :: out); rewrite <- app_assoc; simpl; rewrite L.
    split; reflexivity.
Qed.

Lemma uniquify_loop_prefix (fuel : nat) (max_len : Z) (a b : list str) :
  forall seen result r,
    uniquify_loop fuel (a ++ b) max_len seen result = Some r ->
    exists ra tail,
      uniquify_loop fuel a max_len seen result = Some ra /\ r = ra ++ tail.
Proof.
  induction a as [|raw rest IH]; intros seen result r H.
  - apply uniquify_loop_extends in H; destruct H as (out & -> & _).
    exists result, out; split; reflexivity.
  - simpl in H |- *.
    destruct (resolve_one fuel seen raw max_len) as [c|]; [|discriminate].
    apply IH, H.
Qed.

(** X3.  The resolver streams: the names it gives to the first names of
    a list do not depend on the names that follow. *)
Theorem uniquify_and_truncate_streams (a b : list str) (max_len : Z) :
  firstn (length a) (uniquify_and_truncate (a ++ b) max_len)
  = uniquify_and_truncate a max_len.
Proof.
  destruct (uniquify_fuel_spec max_len (a ++ b)) as (Hab & _ & _).
  destruct (uniquify_fuel_spec max_len a) as (Ha & Hd & _).
  specialize (Hab (S (length (a ++ b))) ltac:(lia)).
  specialize (Ha (S (length (a ++ b))) ltac:(rewrite length_app; lia)).
  unfold uniquify_fuel in Hab, Ha.
  apply uniquify_loop_prefix in Hab; destruct Hab as (ra & tail & Hra & ->).
  rewrite Hra in Ha; inversion Ha; subst ra.
  apply Forall2_length in Hd; rewrite Hd, firstn_app, firstn_all.
  rewrite Nat.sub_diag, app_nil_r; reflexivity.
Qed.

Lemma uniquify_loop_no_collision (max_len : Z) (names : list str) :
  forall fuel seen result,
    NoDup (map (first_key max_len) names) ->
    (forall raw, In raw names -> ~ In (first_key max_len raw) seen) ->
    uniquify_loop (S fuel) names max_len seen result
    = Some (result ++ map (fun raw => first_candidate raw max_len) names).
Proof.
  induction names as [|raw rest IH]; intros fuel seen result Hnd Hfresh.
  - simpl; rewrite app_nil_r; reflexivity.
  - cbn [uniquify_loop map]; unfold resolve_one; cbn [while_seen].
    fold (base_of raw max_len); fold (first_candidate raw max_len).
    assert (Hm : mem (lower (first_candidate raw max_len)) seen = false).
    { apply mem_not_In, Hfresh; left; reflexivity. }
    rewrite Hm, IH.
    + rewrite <- app_assoc; reflexivity.
    + inversion Hnd; assumption.
    + intros r Hr [E | Hin].
      * inversion Hnd as [|? ? Hni _]; subst; apply Hni.
        change (first_key max_len raw)
          with (lower (first_candidate raw max_len));
          rewrite E; apply (in_map (first_key max_len)), Hr.
      * apply (Hfresh r); [right; exact Hr | exact Hin].
Qed.

Lemma uniquify_no_collision (max_len : Z) (names : list str) :
  NoDup (map (first_key max_len) names) ->
  uniquify_and_truncate names max_len
  = map (fun raw => first_candidate raw max_len) names.
Proof.
  intros Hnd; unfold uniquify_and_truncate, uniquify_fuel.
  rewrite uniquify_loop_no_collision; auto.
Qed.

(** X4.  The names come out without a suffix, each as its own sanitised
    and truncated form, exactly when these forms are pairwise distinct
    after lower-casing. *)
Theorem uniquify_and_truncate_plain_iff (names : list str) (max_len : Z) :
  uniquify_and_truncate names max_len
  = map (fun raw => first_candidate raw max_len) names
  <-> NoDup (map (first_key max_len) names).
Proof.
  split; [|apply uniquify_no_collision].
  intros E.
  destruct (uniquify_fuel_spec max_len names) as (_ & _ & Hnd).
  rewrite E, map_map in Hnd; exact Hnd.
Qed.

Lemma slice_to_all (s : str) (k : Z) : len s <= k -> slice_to s k = s.
Proof.
  intros H; unfold slice_to, len in *.
  destruct (k <? 0) eqn:E; [apply Z.ltb_lt in E; lia|].
  apply firstn_all2; lia.
Qed.

Lemma first_candidate_clean (s : str) (max_len : Z) :
  is_clean s = true -> len s <= max_len -> first_candidate s max_len = s.
Proof.
  intros Hc Hl; unfold first_candidate, base_of.
  rewrite (sanitize_sheet_name_fixed s Hc), (slice_to_all s max_len Hl).
  destruct s; [discriminate Hc | reflexivity].
Qed.

(** X5.  Names that are in normal form, at most 31 characters long and
    pairwise distinct after lower-casing are returned as they are. *)
Theorem uniquify_and_truncate_keeps_clean_names (names : list str) :
  Forall (fun s => is_clean s = true /\ len s <= MAX_SHEETNAME_LEN) names ->
  NoDup (map lower names) ->
  uniquify_and_truncate names MAX_SHEETNAME_LEN = names.
Proof.
  intros Hc Hnd.
  assert (E : map (fun raw => first_candidate raw MAX_SHEETNAME_LEN) names
              = names).
  { rewrite <- (map_id names) at 2; apply map_ext_in; intros s Hs.
    rewrite Forall_forall in Hc; destruct (Hc s Hs) as [A B].
    apply first_candidate_clean; assumption. }
  rewrite uniquify_no_collision; [exact E|].
  unfold first_key; rewrite <- (map_map _ lower), E; exact Hnd.
Qed.

Lemma uniquify_and_truncate_keeps_clean_names_witness :
  let names := [lit "Q1 Sales"; lit "Other"; lit "q1 sales 2"] in
  Forall (fun s => is_clean s = true /\ len s <= MAX_SHEETNAME_LEN) names
  /\ NoDup (map lower names)
  /\ uniquify_and_truncate names MAX_SHEETNAME_LEN = names.
Proof.
  intros names.
  assert (H1 : Forall (fun s => is_clean s = true
                                /\ len s <= MAX_SHEETNAME_LEN) names)
    by (repeat constructor; discriminate).
  assert (H2 : NoDup (map lower names)).
  { repeat constructor; simpl; intuition discriminate. }
  split; [exact H1 | split; [exact H2|]].
  exact (uniquify_and_truncate_keeps_clean_names names H1 H2).
Defined.

Lemma uniquify_loop_repeat (raw : str) (max_len : Z) (n : nat) :
  forall (k : N) (fuel : nat) (seen result : list str),
    (length seen + n < fuel)%nat ->
    (1 <= k)%N ->
    (forall x, In x seen <->
       x = first_key max_len raw
       \/ exists i, (1 <= i < k)%N
            /\ x = lower (next_candidate (base_of raw max_len) max_len i)) ->
    (forall i, (k <= i < k + N.of_nat n)%N ->
       lower (next_candidate (base_of raw max_len) max_len i)
       <> first_key max_len raw) ->
    uniquify_loop fuel (repeat raw n) max_len seen result
    = Some (result
            ++ map (next_candidate (base_of raw max_len) max_len)
                 (indices k n)).
Proof.
  induction n as [|n IH]; intros k fuel seen result Hf Hk Hinv Hne.
  - simpl; rewrite app_nil_r; reflexivity.
  - cbn [repeat uniquify_loop]; rewrite indices_S; cbn [map].
    assert (Hres : resolve_one fuel seen raw max_len
                   = Some (next_candidate (base_of raw max_len) max_len k)).
    { unfold resolve_one.
      fold (base_of raw max_len); fold (first_candidate raw max_len).
      destruct (while_seen_total seen (base_of raw max_len) max_len
                  (first_candidate raw max_len) 1)
        as (c & Hrun & Hc & [[Hn _] | (_ & j & Hj & -> & Hall)]).
      - apply mem_not_In in Hn; exfalso; apply Hn, Hinv; left; reflexivity.
      - rewrite Hrun by lia; do 2 f_equal.
        apply mem_not_In in Hc.
        destruct (N.lt_trichotomy j k) as [Hlt | [E | Hgt]]; [|exact E|].
        + exfalso; apply Hc, Hinv; right; exists j; split; [lia|reflexivity].
        + exfalso.
          assert (Hin : In (lower (next_candidate (base_of raw max_len)
                                     max_len k)) seen)
            by (apply mem_In, Hall; lia).
          apply Hinv in Hin; destruct Hin as [E | (i & Hi & E)].
          * apply (Hne k); [lia | exact E].
          * apply next_candidate_key_inj in E; lia. }
    rewrite Hres, (IH (k + 1)%N); try lia.
    + rewrite <- app_assoc; reflexivity.
    + simpl; lia.
    + intros x; split.
      * intros [<- | Hin].
        -- right; exists k; split; [lia | reflexivity].
        -- apply Hinv in Hin; destruct Hin as [E | (i & Hi & E)];
             [left; exact E | right; exists i; split; [lia | exact E]].
      * intros [E | (i & Hi & E)].
        -- right; apply Hinv; left; exact E.
        -- destruct (N.eq_dec i k) as [-> | Hik];
             [left; symmetry; exact E|].
           right; apply Hinv; right; exists i; split; [lia | exact E].
    + intros i Hi; apply Hne; lia.
Qed.

(** X6.  A name given several times in a row keeps its first candidate
    the first time and then takes the suffixes [_1], [_2], ... in order,
    as long as none of these suffixed candidates is, after lower-casing,
    the first candidate itself. *)
Theorem uniquify_and_truncate_repeated (raw : str) (n : nat) (max_len : Z) :
  (forall i, (1 <= i <= N.of_nat n)%N ->
     lower (next_candidate (base_of raw max_len) max_len i)
     <> first_key max_len raw) ->
  uniquify_and_truncate (repeat raw (S n)) max_len
  = first_candidate raw max_len
    :: map (next_candidate (base_of raw max_len) max_len) (indices 1 n).
Proof.
  intros Hne; unfold uniquify_and_truncate, uniquify_fuel.
  cbn [repeat uniquify_loop length]; unfold resolve_one; cbn [while_seen mem existsb].
  fold (base_of raw max_len); fold (first_candidate raw max_len).
  cbn [app].
  rewrite (uniquify_loop_repeat raw max_len n 1); [reflexivity | | lia | |].
  - rewrite repeat_length; simpl; lia.
  - intros x; split.
    + intros [<- | []]; left; reflexivity.
    + intros [-> | (i & Hi & _)]; [left; reflexivity | lia].
  - intros i Hi; apply Hne; lia.
Qed.

Lemma uniquify_and_truncate_repeated_witness :
  (forall i, (1 <= i <= N.of_nat 3)%N ->
     lower (next_candidate (base_of (lit "Report") 31) 31 i)
     <> first_key 31 (lit "Report"))
  /\ uniquify_and_truncate (repeat (lit "Report") 4) 31
     = first_candidate (lit "Report") 31
       :: map (next_candidate (base_of (lit "Report") 31) 31) (indices 1 3).
Proof.
  assert (H : forall i, (1 <= i <= N.of_nat 3)%N ->
     lower (next_candidate (base_of (lit "Report") 31) 31 i)
     <> first_key 31 (lit "Report")).
  { intros i Hi.
    assert (E : i = 1%N \/ i = 2%N \/ i = 3%N) by lia.
    destruct E as [-> | [-> | ->]]; discriminate. }
  split; [exact H|].
  exact (uniquify_and_truncate_repeated (lit "Report") 3 31 H).
Defined.

(** X7.  For any positive [max_len]: when the suffix of every index up
    to the number of names fits in [max_len], every returned name is
    non-empty, at most [max_len] characters long and free of the illegal
    characters. *)
Theorem uniquify_and_truncate_within (names : list str) (max_len : Z) :
  0 < max_len ->
  (forall i, (1 <= i <= N.of_nat (length names))%N ->
     len (suffix_of i) <= max_len) ->
  Forall (valid_name max_len) (uniquify_and_truncate names max_len).
Proof.
  intros Hm Hs.
  destruct (uniquify_fuel_spec max_len names) as (_ & Hd & _).
  induction Hd as [|raw c names' out' H _ IH]; constructor; [|exact IH].
  destruct H as [-> | (i & Hi & ->)].
  - apply first_candidate_valid, Hm.
  - apply next_candidate_valid; [|apply Hs, Hi].
    apply legal_slice_to, sanitize_sheet_name_legal.
Qed.

Lemma uniquify_and_truncate_within_witness :
  let names := [lit "abcdefgh"; lit "ABCDEFGH"; lit "abcde"] in
  0 < 5
  /\ (forall i, (1 <= i <= N.of_nat (length names))%N ->
        len (suffix_of i) <= 5)
  /\ Forall (valid_name 5) (uniquify_and_truncate names 5).
Proof.
  intros names.
  assert (H : forall i, (1 <= i <= N.of_nat (length names))%N ->
                len (suffix_of i) <= 5).
  { intros i Hi.
    assert (E : i = 1%N \/ i = 2%N \/ i = 3%N) by (simpl in Hi; lia).
    destruct E as [-> | [-> | ->]]; discriminate. }
  split; [reflexivity | split; [exact H|]].
  exact (uniquify_and_truncate_within names 5 eq_refl H).
Defined.

(** ** Rename notices *)

Lemma log_renames_spec (pairs : list (str * str)) :
  log_renames pairs = (map rename_notice (filter renamed pairs), Ok tt).
Proof.
  induction pairs as [|[raw final] rest IH]; [reflexivity|].
  cbn [log_renames filter]; unfold renamed at 1, base_of; cbn [fst snd].
  rewrite IH.
  destruct (str_eqb (slice_to (sanitize_sheet_name raw) MAX_SHEETNAME_LEN)
              final); reflexivity.
Qed.

Lemma combine_Forall2 {A B : Type} (R : A -> B -> Prop) (l1 : list A)
    (l2 : list B) :
  length l1 = length l2 ->
  (forall p, In p (combine l1 l2) -> R (fst p) (snd p)) ->
  Forall2 R l1 l2.
Proof.
  revert l2; induction l1 as [|x l1 IH]; intros [|y l2] L H;
    try discriminate; constructor.
  - apply (H (x, y)); left; reflexivity.
  - apply IH; [simpl in L; lia|].
    intros p Hp; apply H; right; exact Hp.
Qed.

Lemma filter_nil_none {A : Type} (f : A -> bool) (l : list A) :
  filter f l = [] -> forall x, In x l -> f x = false.
Proof.
  induction l as [|y l IH]; intros H x []; simpl in H;
    destruct (f y) eqn:E; try discriminate; subst; auto.
Qed.

(** X8.  [log_renames] never fails and logs one warning for each pair
    whose final name differs from the sanitised and truncated raw name,
    in order, and nothing else.  On the names of a run it therefore logs
    nothing exactly when no name needed a suffix: a name that was only
    sanitised or cut to 31 characters is not reported. *)
Theorem rename_notices (names : list str) :
  (forall pairs,
     log_renames pairs = (map rename_notice (filter renamed pairs), Ok tt))
  /\ (fst (log_renames
             (combine names (uniquify_and_truncate names MAX_SHEETNAME_LEN)))
      = []
      <-> NoDup (map (first_key MAX_SHEETNAME_LEN) names)).
Proof.
  split; [apply log_renames_spec|].
  rewrite log_renames_spec; cbn [fst].
  destruct (uniquify_fuel_spec MAX_SHEETNAME_LEN names) as (_ & Hd & Hnd).
  assert (Hbase : forall raw, base_of raw MAX_SHEETNAME_LEN
                              = first_candidate raw MAX_SHEETNAME_LEN).
  { intros raw; symmetry; apply first_candidate_valid; reflexivity. }
  split.
  - intros E; apply map_eq_nil in E.
    assert (F : Forall2 (fun raw c => c = first_candidate raw MAX_SHEETNAME_LEN)
                  names (uniquify_and_truncate names MAX_SHEETNAME_LEN)).
    { apply combine_Forall2; [eapply Forall2_length; exact Hd|].
      intros p Hp; pose proof (filter_nil_none _ _ E p Hp) as Hr.
      unfold renamed in Hr; apply negb_false_iff, str_eqb_eq in Hr.
      rewrite <- Hr; apply Hbase. }
    assert (Eo : uniquify_and_truncate names MAX_SHEETNAME_LEN
                 = map (fun raw => first_candidate raw MAX_SHEETNAME_LEN) names).
    { clear - F; induction F as [|raw c l l' -> _ IH]; simpl;
        [|rewrite IH]; reflexivity. }
    rewrite Eo, map_map in Hnd; exact Hnd.
  - intros Hk; rewrite (uniquify_no_collision _ _ Hk).
    rewrite filter_none; [reflexivity|].
    intros p Hp; unfold renamed; apply negb_false_iff, str_eqb_eq.
    clear - Hp Hbase; induction names as [|raw rest IH]; [destruct Hp|].
    destruct Hp as [<- | Hp]; [apply Hbase | apply IH, Hp].
Qed.

(** ** Paths of the run *)

Lemma find_last_app (c : ascii) (x y : str) (i acc : Z) :
  find_last c (x ++ y) i acc
  = find_last c y (i + len x) (find_last c x i acc).
Proof.
  revert i acc; induction x as [|a x IH]; intros i acc; simpl.
  - f_equal; unfold len; simpl; lia.
  - rewrite IH; f_equal; unfold len; simpl length; lia.
Qed.

Lemma find_last_absent (c : ascii) (y : str) (i acc : Z) :
  ~ In c y -> find_last c y i acc = acc.
Proof.
  revert i acc; induction y as [|a y IH]; intros i acc H; [reflexivity|].
  simpl; destruct (char_eqb a c) eqn:E.
  - apply char_eqb_eq in E; subst; exfalso; apply H; left; reflexivity.
  - apply IH; intros Hin; apply H; right; exact Hin.
Qed.

Lemma rfind_after (c : ascii) (x y : str) :
  ~ In c y -> rfind c (x ++ c :: y) = len x.
Proof.
  intros H; unfold rfind; rewrite find_last_app; simpl.
  unfold char_eqb; rewrite Ascii.eqb_refl.
  rewrite find_last_absent by exact H; lia.
Qed.

Lemma rfind_absent (c : ascii) (y : str) : ~ In c y -> rfind c y = -1.
Proof. intros H; unfold rfind; apply find_last_absent, H. Qed.

Lemma endswith_split (c : ascii) (a : str) :
  endswith c a = true -> exists a', a = a' ++ [c].
Proof.
  unfold endswith; intros H.
  destruct (rev a) as [|x r] eqn:E; [discriminate|].
  simpl in H; apply char_eqb_eq in H; subst x.
  exists (rev r); rewrite <- (rev_involutive a), E; reflexivity.
Qed.

Lemma startswith_absent (c : ascii) (s : str) :
  ~ In c s -> startswith c s = false.
Proof.
  destruct s as [|x s]; [reflexivity|]; simpl; intros H.
  destruct (char_eqb x c) eqn:E; [|reflexivity].
  apply char_eqb_eq in E; subst; exfalso; apply H; left; reflexivity.
Qed.

Lemma path_join_shape (folder name : str) :
  ~ In "/"%char name ->
  path_join folder name = name /\ folder = []
  \/ (exists a, folder = a ++ ["/"%char])
     /\ path_join folder name = folder ++ name
  \/ folder <> [] /\ endswith "/" folder = false
     /\ path_join folder name = folder ++ "/"%char :: name.
Proof.
  intros H; unfold path_join; rewrite (startswith_absent _ _ H).
  destruct folder as [|x f]; [left; split; reflexivity|].
  destruct (endswith "/" (x :: f)) eqn:E.
  - right; left; split; [apply endswith_split, E | reflexivity].
  - right; right; repeat split; discriminate.
Qed.

Lemma skipn_exact {A : Type} (x y : list A) (k : Z) :
  k = Z.of_nat (length x) -> skipn (Z.to_nat k) (x ++ y) = y.
Proof.
  intros ->; rewrite Nat2Z.id, skipn_app, skipn_all, Nat.sub_diag.
  reflexivity.
Qed.

Lemma basename_path_join (folder name : str) :
  ~ In "/"%char name -> basename (path_join folder name) = name.
Proof.
  intros H; unfold basename, slice_from.
  destruct (path_join_shape folder name H)
    as [[-> _] | [[[a ->] ->] | (_ & _ & ->)]].
  - rewrite rfind_absent by exact H; reflexivity.
  - rewrite <- app_assoc; cbn [app]; rewrite rfind_after by exact H.
    change (a ++ "/"%char :: name) with (a ++ ["/"%char] ++ name).
    rewrite app_assoc; apply skipn_exact.
    unfold len; rewrite length_app; simpl; lia.
  - rewrite rfind_after by exact H.
    change (folder ++ "/"%char :: name) with (folder ++ ["/"%char] ++ name).
    rewrite app_assoc; apply skipn_exact.
    unfold len; rewrite length_app; simpl; lia.
Qed.

Lemma slice_to_exact (x y : str) (k : Z) :
  k = len x -> slice_to (x ++ y) k = x.
Proof.
  intros ->; unfold slice_to, len.
  destruct (Z.of_nat (length x) <? 0) eqn:E; [apply Z.ltb_lt in E; lia|].
  rewrite Nat2Z.id, firstn_app, firstn_all, Nat.sub_diag, app_nil_r.
  reflexivity.
Qed.

Lemma lstrip_char_all (c : ascii) (s : str) :
  lstrip_char c s = [] -> s <> [] -> endswith c s = true.
Proof.
  intros H Hne; unfold endswith.
  assert (A : forall x, In x s -> x = c).
  { clear Hne; induction s as [|y s IH]; intros x []; simpl in H;
      destruct (char_eqb y c) eqn:E; try discriminate;
      apply char_eqb_eq in E; subst; auto. }
  destruct (rev s) as [|x r] eqn:E.
  - apply (f_equal (@rev ascii)) in E; rewrite rev_involutive in E.
    simpl in E; congruence.
  - simpl; apply char_eqb_eq, A, in_rev; rewrite E; left; reflexivity.
Qed.

Lemma lstrip_char_app_nil (c : ascii) (s : str) :
  lstrip_char c s = [] -> lstrip_char c (s ++ [c]) = [].
Proof.
  induction s as [|y s IH]; simpl.
  - intros _; unfold char_eqb; rewrite Ascii.eqb_refl; reflexivity.
  - destruct (char_eqb y c); [exact IH | discriminate].
Qed.

Lemma lstrip_char_app_keep (c : ascii) (s t : str) :
  lstrip_char c s <> [] -> lstrip_char c (s ++ t) = lstrip_char c s ++ t.
Proof.
  induction s as [|y s IH]; simpl; [congruence|].
  destruct (char_eqb y c); [exact IH | reflexivity].
Qed.

Lemma dirname_path_join (folder name : str) :
  normal_folder folder = true -> ~ In "/"%char name ->
  dirname (path_join folder name) = folder.
Proof.
  intros Hn H; unfold dirname.
  destruct (path_join_shape folder name H)
    as [[-> ->] | [[[a ->] ->] | (Hne & He & ->)]].
  - rewrite rfind_absent by exact H; reflexivity.
  - unfold normal_folder in Hn.
    assert (He : endswith "/" (a ++ ["/"%char]) = true)
      by (unfold endswith; rewrite rev_app_distr; reflexivity).
    rewrite He in Hn; simpl in Hn.
    rewrite <- app_assoc; cbn [app]; rewrite rfind_after by exact H.
    change (a ++ "/"%char :: name) with (a ++ ["/"%char] ++ name).
    rewrite app_assoc, slice_to_exact
      by (unfold len; rewrite length_app; simpl; lia).
    destruct (lstrip_char "/" (a ++ ["/"%char])); [reflexivity | discriminate].
  - rewrite rfind_after by exact H.
    change (folder ++ "/"%char :: name) with (folder ++ ["/"%char] ++ name).
    rewrite app_assoc, slice_to_exact
      by (unfold len; rewrite length_app; simpl; lia).
    assert (Hl : lstrip_char "/" folder <> []).
    { intros E; apply lstrip_char_all in E; [congruence | exact Hne]. }
    rewrite lstrip_char_app_keep by exact Hl.
    destruct (lstrip_char "/" folder ++ ["/"%char]) as [|x r] eqn:E;
      [apply app_eq_nil in E; destruct E; discriminate|].
    rewrite rev_app_distr; simpl.
    unfold endswith in He.
    destruct (rev folder) as [|y r'] eqn:Er.
    + apply (f_equal (@rev ascii)) in Er; rewrite rev_involutive in Er.
      simpl in Er; congruence.
    + simpl in He |- *; rewrite He.
      rewrite <- Er, rev_involutive; reflexivity.
Qed.

(** X9.  Whatever the order of the listing, [list_input_files] returns
    each selected entry once, as the path joined to the folder, sorted
    ascending by lower-cased basename; a path is returned exactly when it
    is the path of a listed name that is a regular file and whose
    extension, lower-cased, is one of the five supported ones. *)
Theorem list_input_files_selected_sorted (w : World) (folder : str) :
  StronglySorted (key_le sort_key) (list_input_files w folder)
  /\ Permutation (list_input_files w folder)
       (map (path_join folder)
          (filter (selected w folder) (listdir w folder)))
  /\ (forall p,
        In p (list_input_files w folder) <->
        exists name,
          In name (listdir w folder)
          /\ p = path_join folder name
          /\ isfile w p = true
          /\ In (lower (snd (splitext name))) (EXCEL_EXTS ++ CSV_EXTS)).
Proof.
  destruct (list_input_files_sorted w folder) as [S P].
  split; [exact S | split; [exact P|]].
  intros p; split.
  - intros Hp; apply (Permutation_in _ P), in_map_iff in Hp.
    destruct Hp as (name & <- & Hn); apply filter_In in Hn.
    destruct Hn as [Hn Hs]; unfold selected in Hs.
    apply andb_true_iff in Hs; destruct Hs as [Hf He].
    exists name; repeat split; auto; apply mem_In, He.
  - intros (name & Hn & -> & Hf & He).
    apply (Permutation_in _ (Permutation_sym P)), in_map, filter_In.
    split; [exact Hn|]; unfold selected; rewrite Hf; apply mem_In, He.
Qed.

Lemma sort_key_path_join (folder name : str) :
  ~ In "/"%char name -> sort_key (path_join folder name) = lower name.
Proof.
  intros H; unfold sort_key; rewrite basename_path_join by exact H.
  reflexivity.
Qed.

(** X10.  When the listed names contain no slash and no two selected
    names are equal after lower-casing, the result of [list_input_files]
    is the same for every order in which the directory is listed. *)
Theorem list_input_files_order_independent (w w' : World) (folder : str) :
  Permutation (listdir w folder) (listdir w' folder) ->
  (forall p, isfile w p = isfile w' p) ->
  (forall name, In name (listdir w folder) -> ~ In "/"%char name) ->
  NoDup (map lower (filter (selected w folder) (listdir w folder))) ->
  list_input_files w folder = list_input_files w' folder.
Proof.
  intros Hp Hf Hs Hnd.
  apply list_input_files_deterministic; auto.
  destruct (list_input_files_sorted w folder) as [_ P].
  eapply Permutation_NoDup;
    [apply Permutation_map, Permutation_sym, P|].
  rewrite map_map.
  rewrite (map_ext_in _ lower); [exact Hnd|].
  intros name Hn; apply filter_In in Hn; destruct Hn as [Hn _].
  apply sort_key_path_join, Hs, Hn.
Qed.

Lemma list_input_files_order_independent_witness :
  let world (listing : list str) :=
    mkWorld (fun p => p) (fun _ => true) (fun _ => listing)
      (fun p => negb (str_eqb p (lit "/d/sub")))
      (fun _ _ => Ok placeholder) (fun _ => Ok [])
      (fun _ _ => Ok placeholder) in
  let l1 := [lit "b.csv"; lit "sub"; lit "A.xlsx"; lit "notes.md"] in
  let l2 := [lit "notes.md"; lit "A.xlsx"; lit "b.csv"; lit "sub"] in
  Permutation (listdir (world l1) (lit "/d")) (listdir (world l2) (lit "/d"))
  /\ (forall p, isfile (world l1) p = isfile (world l2) p)
  /\ (forall name, In name (listdir (world l1) (lit "/d")) ->
        ~ In "/"%char name)
  /\ NoDup (map lower (filter (selected (world l1) (lit "/d"))
                         (listdir (world l1) (lit "/d"))))
  /\ list_input_files (world l1) (lit "/d")
     = list_input_files (world l2) (lit "/d").
Proof.
  intros world l1 l2.
  assert (H1 : Permutation (listdir (world l1) (lit "/d"))
                 (listdir (world l2) (lit "/d"))).
  { simpl; unfold l1, l2.
    apply Permutation_sym.
    apply (Permutation_trans
             (l' := [lit "A.xlsx"; lit "notes.md"; lit "b.csv"; lit "sub"]));
      [apply perm_swap|].
    apply (Permutation_cons_app [lit "b.csv"; lit "sub"] [lit "notes.md"]).
    apply (Permutation_cons_app [lit "b.csv"; lit "sub"] []).
    rewrite app_nil_r; apply Permutation_refl. }
  assert (H2 : forall p, isfile (world l1) p = isfile (world l2) p)
    by reflexivity.
  assert (H3 : forall name, In name (listdir (world l1) (lit "/d")) ->
                 ~ In "/"%char name).
  { intros name [<- | [<- | [<- | [<- | []]]]] Hin; simpl in Hin;
      intuition discriminate. }
  assert (H4 : NoDup (map lower (filter (selected (world l1) (lit "/d"))
                                   (listdir (world l1) (lit "/d"))))).
  { repeat constructor; simpl; intuition discriminate. }
  split; [exact H1 | split; [exact H2 | split; [exact H3 | split;
    [exact H4|]]]].
  exact (list_input_files_order_independent (world l1) (world l2) (lit "/d")
           H1 H2 H3 H4).
Defined.

(** X11.  Every file [list_input_files] returns is extracted by one of
    the two readers: when the listed names contain no slash, the
    extension [collect_tables] computes from the path is a supported one,
    so the loop body never falls through without reading the file. *)
Theorem listed_files_are_read (w : World) (folder path : str) (acc : tables) :
  (forall name, In name (listdir w folder) -> ~ In "/"%char name) ->
  In path (list_input_files w folder) ->
  mem (lower (snd (splitext (basename path)))) (EXCEL_EXTS ++ CSV_EXTS) = true
  /\ existsb is_read (fst (collect_file w path acc)) = true.
Proof.
  intros Hs Hp.
  destruct (list_input_files_sorted w folder) as [_ P].
  apply (Permutation_in _ P), in_map_iff in Hp.
  destruct Hp as (name & <- & Hn); apply filter_In in Hn.
  destruct Hn as [Hn Hsel]; unfold selected in Hsel.
  apply andb_true_iff in Hsel; destruct Hsel as [_ He].
  rewrite (basename_path_join folder name (Hs name Hn)).
  split; [exact He|].
  unfold collect_file.
  rewrite (basename_path_join folder name (Hs name Hn)).
  unfold mem in He; rewrite existsb_app in He.
  fold (mem (lower (snd (splitext name))) EXCEL_EXTS) in He.
  fold (mem (lower (snd (splitext name))) CSV_EXTS) in He.
  destruct (mem (lower (snd (splitext name))) EXCEL_EXTS).
  - rewrite bind_fst; unfold read_excel_all_sheets at 1; rewrite bind_fst.
    reflexivity.
  - cbn [orb] in He; rewrite He, bind_fst.
    unfold read_csv_like at 1, read_csv, call, except_decode.
    destruct (pd_read_csv w (path_join folder name) UTF8) as [|[]]; reflexivity.
Qed.

Lemma listed_files_are_read_witness :
  let w := mkWorld (fun p => p) (fun _ => true)
             (fun _ => [lit "b.TXT"; lit "a.xls"])
             (fun _ => true)
             (fun _ _ => Ok placeholder) (fun _ => Ok [lit "S"])
             (fun _ _ => Ok placeholder) in
  (forall name, In name (listdir w (lit "/d")) -> ~ In "/"%char name)
  /\ In (lit "/d/b.TXT") (list_input_files w (lit "/d"))
  /\ mem (lower (snd (splitext (basename (lit "/d/b.TXT")))))
       (EXCEL_EXTS ++ CSV_EXTS) = true
  /\ existsb is_read (fst (collect_file w (lit "/d/b.TXT") ([], []))) = true.
Proof.
  intros w.
  assert (H1 : forall name, In name (listdir w (lit "/d")) ->
                 ~ In "/"%char name).
  { intros name [<- | [<- | []]] Hin; simpl in Hin; intuition discriminate. }
  assert (H2 : In (lit "/d/b.TXT") (list_input_files w (lit "/d")))
    by (right; left; reflexivity).
  split; [exact H1 | split; [exact H2|]].
  exact (listed_files_are_read w (lit "/d") (lit "/d/b.TXT") ([], []) H1 H2).
Defined.

(** X12.  The workbook goes into the input folder: for a folder path as
    [os.path.abspath] returns it and an output name without a slash, the
    directory of the joined path is the folder and its last component the
    output name.  [save_to_excel] at that path begins by asking for the
    folder; with an empty folder part that call raises and nothing else is
    done, when the call is refused its exception is the outcome, and when
    it succeeds the writer is opened next, on the joined path. *)
Theorem output_goes_into_folder (w : World) (folder name : str)
    (dfs : list DataFrame) (sheet_names : list str) :
  normal_folder folder = true -> ~ In "/"%char name ->
  dirname (path_join folder name) = folder
  /\ basename (path_join folder name) = name
  /\ hd_error (fst (save_to_excel w dfs sheet_names (path_join folder name)))
     = Some (EvMakedirs folder)
  /\ (folder = [] ->
      save_to_excel w dfs sheet_names (path_join folder name)
      = ([EvMakedirs []], Raise (OtherError (lit "FileNotFoundError"))))
  /\ (forall e, folder <> [] -> os_makedirs w folder = Raise e ->
      save_to_excel w dfs sheet_names (path_join folder name)
      = ([EvMakedirs folder], Raise e))
  /\ (folder <> [] -> os_makedirs w folder = Ok tt ->
      firstn 2 (fst (save_to_excel w dfs sheet_names (path_join folder name)))
      = [EvMakedirs folder; EvOpenWriter (path_join folder name)]).
Proof.
  intros Hn H.
  pose proof (dirname_path_join folder name Hn H) as D.
  split; [exact D | split; [apply basename_path_join, H|]].
  unfold save_to_excel, makedirs, call; rewrite D.
  split; [|split; [|split]].
  - destruct (match folder with
              | [] => Raise (OtherError (lit "FileNotFoundError"))
              | _ :: _ => os_makedirs w folder
              end) as [[]|e]; [|reflexivity].
    cbn [bind fst]; destruct (pd_ExcelWriter w (path_join folder name));
      cbn [bind fst app]; [|reflexivity].
    destruct (finally _ _ ;;; _); reflexivity.
  - intros ->; reflexivity.
  - intros e Hne He; destruct folder; [congruence|].
    rewrite He; reflexivity.
  - intros Hne Hok; destruct folder; [congruence|].
    rewrite Hok; cbn [bind fst app].
    destruct (pd_ExcelWriter w (path_join (a :: folder) name));
      cbn [bind fst app]; [|reflexivity].
    destruct (finally _ _ ;;; _); reflexivity.
Qed.

Lemma output_goes_into_folder_witness :
  let w := mkWorld (fun p => p) (fun _ => true) (fun _ => [])
             (fun _ => true) (fun _ _ => Ok placeholder) (fun _ => Ok [])
             (fun _ _ => Ok placeholder) in
  normal_folder (lit "/data/in") = true
  /\ ~ In "/"%char (lit "merged.xlsx")
  /\ dirname (path_join (lit "/data/in") (lit "merged.xlsx")) = lit "/data/in"
  /\ basename (path_join (lit "/data/in") (lit "merged.xlsx"))
     = lit "merged.xlsx"
  /\ firstn 2 (fst (save_to_excel w [placeholder] [lit "S"]
                      (path_join (lit "/data/in") (lit "merged.xlsx"))))
     = [EvMakedirs (lit "/data/in");
        EvOpenWriter (path_join (lit "/data/in") (lit "merged.xlsx"))]
  /\ save_to_excel w [placeholder] [lit "S"] (path_join [] (lit "merged.xlsx"))
     = ([EvMakedirs []], Raise (OtherError (lit "FileNotFoundError"))).
Proof.
  intros w.
  assert (H1 : normal_folder (lit "/data/in") = true) by reflexivity.
  assert (H2 : ~ In "/"%char (lit "merged.xlsx"))
    by (simpl; intuition discriminate).
  destruct (output_goes_into_folder w (lit "/data/in") (lit "merged.xlsx")
              [placeholder] [lit "S"] H1 H2) as (A & B & _ & _ & _ & C).
  destruct (output_goes_into_folder w [] (lit "merged.xlsx")
              [placeholder] [lit "S"] eq_refl H2) as (_ & _ & _ & D & _).
  split; [exact H1 | split; [exact H2 | split; [exact A | split; [exact B|]]]].
  split; [apply C; [discriminate | reflexivity] | apply D; reflexivity].
Defined.

(** ** Workbooks *)

Lemma read_sheets_all (w : World) (path : str) (sheet_names : list str)
    (dfs : list DataFrame) :
  Forall2 (fun sheet df => pd_read_excel w path sheet = Ok df)
    sheet_names dfs ->
  forall items,
    read_sheets w path sheet_names items
    = (map (EvReadExcel path) sheet_names,
       Ok (items ++ combine sheet_names dfs)).
Proof.
  induction 1 as [|sheet df rest dfs' E _ IH]; intros items.
  - simpl; rewrite app_nil_r; reflexivity.
  - cbn [read_sheets]; unfold call, bind; rewrite E, IH, <- app_assoc.
    reflexivity.
Qed.

Lemma read_sheets_stops (w : World) (path : str) (pre : list str)
    (dfs : list DataFrame) (sheet : str) (post : list str) (e : exn) :
  Forall2 (fun sheet df => pd_read_excel w path sheet = Ok df) pre dfs ->
  pd_read_excel w path sheet = Raise e ->
  forall items,
    read_sheets w path (pre ++ sheet :: post) items
    = (map (EvReadExcel path) (pre ++ [sheet]), Raise e).
Proof.
  intros H Hs; induction H as [|s df rest dfs' E _ IH]; intros items.
  - cbn [app read_sheets]; unfold call, bind; rewrite Hs; reflexivity.
  - cbn [app read_sheets]; unfold call, bind; rewrite E, IH; reflexivity.
Qed.

(** X13.  [read_excel_all_sheets] opens the workbook and then reads its
    sheets one by one in the workbook's order.  When the workbook cannot
    be opened no sheet is read; when every sheet reads, the result pairs
    each sheet name with its table, in order; and when a sheet fails, the
    sheets after it are not read and its exception is the outcome. *)
Theorem read_excel_all_sheets_outcome (w : World) (path : str) :
  (forall e, pd_ExcelFile w path = Raise e ->
     read_excel_all_sheets w path = ([EvExcelFile path], Raise e))
  /\ (forall sheet_names dfs,
        pd_ExcelFile w path = Ok sheet_names ->
        Forall2 (fun sheet df => pd_read_excel w path sheet = Ok df)
          sheet_names dfs ->
        read_excel_all_sheets w path
        = (EvExcelFile path :: map (EvReadExcel path) sheet_names,
           Ok (combine sheet_names dfs)))
  /\ (forall pre dfs sheet post e,
        pd_ExcelFile w path = Ok (pre ++ sheet :: post) ->
        Forall2 (fun sheet df => pd_read_excel w path sheet = Ok df)
          pre dfs ->
        pd_read_excel w path sheet = Raise e ->
        read_excel_all_sheets w path
        = (EvExcelFile path :: map (EvReadExcel path) (pre ++ [sheet]),
           Raise e)).
Proof.
  unfold read_excel_all_sheets, call, bind; repeat split.
  - intros e ->; reflexivity.
  - intros sheet_names dfs -> H; rewrite (read_sheets_all w path _ _ H).
    reflexivity.
  - intros pre dfs sheet post e -> H Hs.
    rewrite (read_sheets_stops w path _ _ _ _ _ H Hs); reflexivity.
Qed.

Lemma read_excel_all_sheets_outcome_witness :
  let frame := mkDataFrame [(lit "c", [CellInt 1])] in
  let w := mkWorld (fun p => p) (fun _ => true) (fun _ => [lit "a.xlsx"])
             (fun _ => true) (fun _ _ => Ok frame)
             (fun p => if str_eqb p (lit "/d/a.xlsx")
                       then Ok [lit "S1"; lit "S2"; lit "S3"]
                       else Raise (OtherError (lit "BadZipFile")))
             (fun p s => if str_eqb s (lit "S2") && str_eqb p (lit "/d/b.xlsx")
                         then Raise ValueError else Ok frame) in
  let w' := mkWorld (fun p => p) (fun _ => true) (fun _ => [lit "a.xlsx"])
              (fun _ => true) (fun _ _ => Ok frame)
              (fun p => Ok [lit "S1"; lit "S2"; lit "S3"])
              (fun p s => if str_eqb s (lit "S2")
                          then Raise ValueError else Ok frame) in
  read_excel_all_sheets w (lit "/d/c.xlsx")
  = ([EvExcelFile (lit "/d/c.xlsx")], Raise (OtherError (lit "BadZipFile")))
  /\ read_excel_all_sheets w (lit "/d/a.xlsx")
     = (EvExcelFile (lit "/d/a.xlsx")
        :: map (EvReadExcel (lit "/d/a.xlsx")) [lit "S1"; lit "S2"; lit "S3"],
        Ok (combine [lit "S1"; lit "S2"; lit "S3"] [frame; frame; frame]))
  /\ read_excel_all_sheets w' (lit "/d/a.xlsx")
     = (EvExcelFile (lit "/d/a.xlsx")
        :: map (EvReadExcel (lit "/d/a.xlsx")) ([lit "S1"] ++ [lit "S2"]),
        Raise ValueError).
Proof.
  intros frame w w'.
  destruct (read_excel_all_sheets_outcome w (lit "/d/c.xlsx")) as (A & _ & _).
  destruct (read_excel_all_sheets_outcome w (lit "/d/a.xlsx")) as (_ & B & _).
  destruct (read_excel_all_sheets_outcome w' (lit "/d/a.xlsx")) as (_ & _ & C).
  split; [apply A; reflexivity|].
  split; [apply B; [reflexivity | repeat constructor]|].
  apply (C [lit "S1"] [frame] (lit "S2") [lit "S3"] ValueError);
    [reflexivity | repeat constructor | reflexivity].
Defined.

(** ** Extracting the files *)

Lemma collect_file_from_empty (w : World) (path : str) (acc : tables) :
  collect_file w path acc
  = (fst (collect_file w path ([], [])),
     match snd (collect_file w path ([], [])) with
     | Ok added => Ok (fst acc ++ fst added, snd acc ++ snd added)
     | Raise e => Raise e
     end).
Proof.
  unfold collect_file.
  destruct (mem (lower (snd (splitext (basename path)))) EXCEL_EXTS).
  - destruct (read_excel_all_sheets w path)
      as [t [[|[name df] [|item rest]]|e]];
      cbn [bind log emit ret fst snd app]; rewrite ?append_entries;
      cbn [fst snd app]; rewrite ?app_nil_r; try reflexivity.
  - destruct (mem (lower (snd (splitext (basename path)))) CSV_EXTS).
    + destruct (read_csv_like w path) as [t [df|e]];
        cbn [bind log emit ret fst snd app]; reflexivity.
    + destruct acc; cbn [ret fst snd]; rewrite !app_nil_r; reflexivity.
Qed.

Lemma collect_file_failed_any (w : World) (path : str) (acc : tables) :
  failed (snd (collect_file w path acc)) = negb (extracts w path).
Proof.
  rewrite collect_file_from_empty; unfold extracts; cbn [snd].
  destruct (snd (collect_file w path ([], []))); reflexivity.
Qed.

Lemma extraction_trace_app (w : World) (a b : list str) :
  extraction_trace w (a ++ b) = extraction_trace w a ++ extraction_trace w b.
Proof. unfold extraction_trace; rewrite map_app, concat_app; reflexivity. Qed.

Lemma collect_files_all (w : World) (files : list str) :
  forallb (extracts w) files = true ->
  forall acc,
    fst (collect_files w files acc) = extraction_trace w files
    /\ failed (snd (collect_files w files acc)) = false.
Proof.
  induction files as [|path rest IH]; intros H acc; [split; reflexivity|].
  cbn [forallb] in H; apply andb_true_iff in H; destruct H as [Hp Hr].
  cbn [collect_files]; rewrite (collect_file_from_empty w path acc).
  unfold extracts in Hp.
  destruct (snd (collect_file w path ([], []))) as [added|e] eqn:E;
    [|discriminate].
  cbn [bind].
  destruct (collect_files w rest (fst acc ++ fst added, snd acc ++ snd added))
    as [t r] eqn:Er.
  destruct (IH Hr (fst acc ++ fst added, snd acc ++ snd added)) as [A B].
  rewrite Er in A, B; cbn [fst snd] in *; subst t; split; [|exact B].
  reflexivity.
Qed.

Lemma collect_files_first_failure (w : World) (pre : list str) (path : str)
    (post : list str) (e : exn) :
  forallb (extracts w) pre = true ->
  snd (collect_file w path ([], [])) = Raise e ->
  forall acc,
    collect_files w (pre ++ path :: post) acc
    = (extraction_trace w (pre ++ [path]), Raise e).
Proof.
  intros Hpre Hp; induction pre as [|p rest IH]; intros acc.
  - cbn [app collect_files]; rewrite (collect_file_from_empty w path acc), Hp.
    unfold extraction_trace; cbn [bind map concat]; rewrite app_nil_r.
    reflexivity.
  - cbn [forallb] in Hpre; apply andb_true_iff in Hpre.
    destruct Hpre as [Hok Hr].
    cbn [app collect_files]; rewrite (collect_file_from_empty w p acc).
    unfold extracts in Hok.
    destruct (snd (collect_file w p ([], []))) as [added|e'] eqn:E;
      [|discriminate].
    cbn [bind]; rewrite (IH Hr).
    unfold extraction_trace; cbn [map concat]; reflexivity.
Qed.

Lemma forallb_split {A : Type} (f : A -> bool) (l : list A) :
  forallb f l = false ->
  exists pre x post, l = pre ++ x :: post /\ forallb f pre = true
                     /\ f x = false.
Proof.
  induction l as [|y l IH]; [discriminate|]; cbn [forallb]; intros H.
  destruct (f y) eqn:E.
  - destruct (IH H) as (pre & x & post & -> & Hp & Hx).
    exists (y :: pre), x, post; cbn [forallb]; rewrite E, Hp; auto.
  - exists [], y, l; auto.
Qed.

(** X14.  The files of a run are extracted in order, each independently
    of the tables collected so far, and the run stops at the first file
    whose extraction fails: the events are those of the files up to and
    including that one, the later files are not touched, and the outcome
    is that file's exception.  When every file extracts, the events are
    those of all the files and the loop succeeds. *)
Theorem collect_files_stops_at_first_failure (w : World) (files : list str)
    (acc : tables) :
  (forallb (extracts w) files = true ->
     fst (collect_files w files acc) = extraction_trace w files
     /\ failed (snd (collect_files w files acc)) = false)
  /\ (forall pre path post e,
        files = pre ++ path :: post ->
        forallb (extracts w) pre = true ->
        snd (collect_file w path ([], [])) = Raise e ->
        collect_files w files acc
        = (extraction_trace w (pre ++ [path]), Raise e)).
Proof.
  split.
  - intros H; apply collect_files_all, H.
  - intros pre path post e -> Hpre Hp.
    apply collect_files_first_failure; assumption.
Qed.

Lemma collect_files_stops_at_first_failure_witness :
  let frame := mkDataFrame [(lit "c", [CellInt 1])] in
  let w := mkWorld (fun p => p) (fun _ => true)
             (fun _ => [lit "a.csv"; lit "b.csv"; lit "c.csv"])
             (fun _ => true)
             (fun p _ => if str_eqb p (lit "/d/b.csv")
                         then Raise (OtherError (lit "ParserError"))
                         else Ok frame)
             (fun _ => Ok []) (fun _ _ => Ok frame) in
  (fst (collect_files w [lit "/d/a.csv"; lit "/d/c.csv"] ([], []))
   = extraction_trace w [lit "/d/a.csv"; lit "/d/c.csv"]
   /\ failed (snd (collect_files w [lit "/d/a.csv"; lit "/d/c.csv"] ([], [])))
      = false)
  /\ collect_files w [lit "/d/a.csv"; lit "/d/b.csv"; lit "/d/c.csv"] ([], [])
     = (extraction_trace w ([lit "/d/a.csv"] ++ [lit "/d/b.csv"]),
        Raise (OtherError (lit "ParserError"))).
Proof.
  intros frame w.
  destruct (collect_files_stops_at_first_failure w
              [lit "/d/a.csv"; lit "/d/c.csv"] ([], [])) as [A _].
  destruct (collect_files_stops_at_first_failure w
              [lit "/d/a.csv"; lit "/d/b.csv"; lit "/d/c.csv"] ([], []))
    as [_ B].
  split; [apply A; reflexivity|].
  apply (B [lit "/d/a.csv"] (lit "/d/b.csv") [lit "/d/c.csv"]); reflexivity.
Defined.

Lemma log_renames_ok (pairs : list (str * str)) :
  snd (log_renames pairs) = Ok tt.
Proof. rewrite log_renames_spec; reflexivity. Qed.

Lemma collect_tables_result (w : World) (folder : str) :
  snd (collect_tables w folder)
  = match list_input_files w folder with
    | [] => Raise (SystemExit 1)
    | files =>
        match snd (collect_files w files ([], [])) with
        | Ok acc =>
            Ok (fst acc, uniquify_and_truncate (snd acc) MAX_SHEETNAME_LEN)
        | Raise e => Raise e
        end
    end.
Proof.
  unfold collect_tables.
  destruct (list_input_files w folder) as [|p rest]; [reflexivity|].
  destruct (snd (collect_files w (p :: rest) ([], []))) as [acc|e] eqn:E.
  - rewrite (bind_snd_ok _ _ acc E).
    rewrite (bind_snd_ok _ _ tt (log_renames_ok _)); reflexivity.
  - rewrite (bind_snd_raise _ _ e E); reflexivity.
Qed.

(** X15.  [collect_tables] succeeds exactly when the folder has at least
    one supported file and every one of them extracts; with no supported
    file it raises [SystemExit(1)], and otherwise a failure is the
    exception of the first file, in sorted order, that fails. *)
Theorem collect_tables_succeeds_iff (w : World) (folder : str) :
  (failed (snd (collect_tables w folder)) = false
   <-> list_input_files w folder <> []
       /\ forallb (extracts w) (list_input_files w folder) = true)
  /\ (list_input_files w folder = [] ->
      snd (collect_tables w folder) = Raise (SystemExit 1))
  /\ (forall pre path post e,
        list_input_files w folder = pre ++ path :: post ->
        forallb (extracts w) pre = true ->
        snd (collect_file w path ([], [])) = Raise e ->
        snd (collect_tables w folder) = Raise e).
Proof.
  rewrite collect_tables_result; split; [|split].
  - destruct (list_input_files w folder) as [|p rest] eqn:Ef.
    + split; [discriminate | intros [H _]; congruence].
    + destruct (forallb (extracts w) (p :: rest)) eqn:Ea.
      * destruct (collect_files_all w _ Ea ([], [])) as [_ F].
        destruct (snd (collect_files w (p :: rest) ([], [])));
          [|discriminate].
        split; [intros _; split; [discriminate | reflexivity] | reflexivity].
      * destruct (forallb_split _ _ Ea) as (pre & x & post & El & Hp & Hx).
        unfold extracts in Hx; apply negb_false_iff in Hx.
        destruct (snd (collect_file w x ([], []))) as [a|e] eqn:Ex;
          [discriminate|].
        rewrite El, (collect_files_first_failure w pre x post e Hp Ex).
        cbn [snd]; destruct (pre ++ x :: post) eqn:El';
          [destruct pre; discriminate|].
        split; [discriminate | intros [_ H]; discriminate].
  - intros ->; reflexivity.
  - intros pre path post e El Hp Hx.
    destruct (list_input_files w folder) as [|q rest];
      [destruct pre; discriminate|].
    rewrite El, (collect_files_first_failure w pre path post e Hp Hx).
    reflexivity.
Qed.

Lemma collect_tables_succeeds_iff_witness :
  let frame := mkDataFrame [(lit "c", [CellInt 1])] in
  let w := mkWorld (fun p => p) (fun _ => true)
             (fun folder => if str_eqb folder (lit "/empty") then []
                            else [lit "b.csv"; lit "a.csv"])
             (fun _ => true)
             (fun p _ => if str_eqb p (lit "/d/b.csv")
                         then Raise (OtherError (lit "ParserError"))
                         else Ok frame)
             (fun _ => Ok []) (fun _ _ => Ok frame) in
  snd (collect_tables w (lit "/empty")) = Raise (SystemExit 1)
  /\ snd (collect_tables w (lit "/d"))
     = Raise (OtherError (lit "ParserError")).
Proof.
  intros frame w.
  destruct (collect_tables_succeeds_iff w (lit "/empty")) as (_ & A & _).
  destruct (collect_tables_succeeds_iff w (lit "/d")) as (_ & _ & B).
  split; [apply A; reflexivity|].
  apply (B [lit "/d/a.csv"] (lit "/d/b.csv") []); reflexivity.
Defined.

(** ** The whole run *)

Lemma written_sheets_no_write (t : list event) :
  Forall (fun e => is_write e = false) t -> written_sheets t = [].
Proof.
  induction 1 as [|e t He _ IH]; [reflexivity|].
  destruct e; simpl in *; try discriminate; exact IH.
Qed.

Lemma log_renames_no_write (pairs : list (str * str)) :
  Forall (fun e => is_write e = false) (fst (log_renames pairs)).
Proof.
  rewrite log_renames_spec; cbn [fst].
  induction (filter renamed pairs); constructor; [reflexivity | assumption].
Qed.

Lemma collect_tables_no_write (w : World) (folder : str) :
  Forall (fun e => is_write e = false) (fst (collect_tables w folder)).
Proof.
  unfold collect_tables.
  destruct (list_input_files w folder) as [|p rest]; [repeat constructor|].
  apply bind_trace_Forall; [apply collect_files_no_write|].
  intros acc _; apply bind_trace_Forall;
    [apply log_renames_no_write | intros; constructor].
Qed.

Lemma write_sheets_no_read (w : World) (out_path : str)
    (pairs : list (DataFrame * str)) (written : list (str * DataFrame)) :
  Forall (fun e => is_read e = false)
    (fst (write_sheets w out_path pairs written)).
Proof.
  revert written; induction pairs as [|[df name] rest IH]; intros written;
    [constructor|].
  cbn [write_sheets].
  apply bind_trace_Forall; [constructor|]; intros df' _.
  apply bind_trace_Forall; [|intros; apply IH].
  cbn [call fst]; repeat constructor.
Qed.

Lemma save_to_excel_no_read (w : World) (dfs : list DataFrame)
    (sheet_names : list str) (out_path : str) :
  Forall (fun e => is_read e = false)
    (fst (save_to_excel w dfs sheet_names out_path)).
Proof.
  unfold save_to_excel.
  apply bind_trace_Forall;
    [cbn [makedirs call fst]; repeat constructor|]; intros _ _.
  apply bind_trace_Forall; [cbn [call fst]; repeat constructor|]; intros _ _.
  apply bind_trace_Forall; [|intros; repeat constructor].
  rewrite finally_fst; apply Forall_app; split; [apply write_sheets_no_read|].
  cbn [close_writer call fst]; repeat constructor.
Qed.


Lemma main_run (w : World) (args : Args) :
  main w args
  = if isdir w (abspath w (input_folder args))
    then bind (collect_tables w (abspath w (input_folder args)))
           (fun r =>
              save_to_excel w (fst r) (snd r)
                (path_join (abspath w (input_folder args))
                   (output_name args)))
    else ([EvLog ERROR (lit "Input folder not found: "
                        ++ abspath w (input_folder args))],
          Raise (SystemExit 1)).
Proof.
  unfold main; destruct (isdir w (abspath w (input_folder args)));
    reflexivity.
Qed.

(** X16.  A run reads before it writes: its events split into a first
    part without any call of the sink and a second part without any call
    of a reader, so no source is read once the output has been touched. *)
Theorem main_reads_before_writes (w : World) (args : Args) :
  exists t1 t2,
    fst (main w args) = t1 ++ t2
    /\ Forall (fun e => is_write e = false) t1
    /\ Forall (fun e => is_read e = false) t2.
Proof.
  rewrite main_run.
  destruct (isdir w (abspath w (input_folder args))).
  - rewrite bind_fst.
    eexists _, _; split; [reflexivity|].
    split; [apply collect_tables_no_write|].
    destruct (snd (collect_tables w (abspath w (input_folder args))));
      [apply save_to_excel_no_read | constructor].
  - eexists _, []; split; [symmetry; apply app_nil_r|].
    split; repeat constructor.
Qed.

(** The sheets a run hands over are the first of those it has to write,
    if it comes to writing. *)
Lemma main_written_sheets (w : World) (args : Args) :
  exists k,
    written_sheets (fst (main w args))
    = firstn k
        match isdir w (abspath w (input_folder args)),
              snd (collect_tables w (abspath w (input_folder args))) with
        | true, Ok r => map handed (combine (fst r) (snd r))
        | _, _ => []
        end.
Proof.
  rewrite main_run.
  destruct (isdir w (abspath w (input_folder args)));
    [|exists O; reflexivity].
  rewrite bind_fst, written_sheets_app.
  rewrite (written_sheets_no_write _ (collect_tables_no_write w _)).
  destruct (snd (collect_tables w (abspath w (input_folder args))))
    as [r|e]; [|exists O; reflexivity].
  cbn [app].
  destruct (save_to_excel_written w
              (path_join (abspath w (input_folder args)) (output_name args))
              (fst r) (snd r)) as [-> | ->]; [exists O; reflexivity|].
  destruct (write_sheets_prefix w
              (path_join (abspath w (input_folder args)) (output_name args))
              (combine (fst r) (snd r)) []) as (k & Hk & _).
  exists k; exact Hk.
Qed.

Lemma handed_combine (dfs : list DataFrame) (names : list str) :
  length dfs = length names ->
  map handed (combine dfs names) = combine names (map sheet_of dfs).
Proof.
  revert names; induction dfs as [|df dfs IH]; intros [|name names] L;
    try discriminate; [reflexivity|].
  cbn [combine map]; rewrite IH by (simpl in L; lia); reflexivity.
Qed.

Lemma map_fst_combine {A B : Type} (l1 : list A) (l2 : list B) :
  length l1 = length l2 -> map fst (combine l1 l2) = l1.
Proof.
  revert l2; induction l1 as [|x l1 IH]; intros [|y l2] L;
    try discriminate; [reflexivity|].
  simpl; f_equal; apply IH; simpl in L; lia.
Qed.

(** The names given to the first names of a list are those the first
    names get on their own. *)
Lemma uniquify_and_truncate_firstn (k : nat) (names : list str)
    (max_len : Z) :
  firstn k (uniquify_and_truncate names max_len)
  = uniquify_and_truncate (firstn k names) max_len.
Proof.
  destruct (uniquify_fuel_spec max_len names) as (Hn & Hdn & _).
  destruct (uniquify_fuel_spec max_len (firstn k names)) as (Ha & Hd & _).
  apply Forall2_length in Hdn, Hd.
  destruct (Nat.le_gt_cases k (length names)) as [Hk | Hk].
  - specialize (Hn (S (length names)) ltac:(lia)).
    specialize (Ha (S (length names)) ltac:(rewrite length_firstn; lia)).
    unfold uniquify_fuel in Hn, Ha.
    remember (uniquify_and_truncate names max_len) as out eqn:Eo.
    remember (S (length names)) as fuel eqn:Ef.
    rewrite <- (firstn_skipn k names) in Hn.
    apply uniquify_loop_prefix in Hn; destruct Hn as (ra & tail & Hra & E).
    rewrite Hra in Ha; inversion Ha; subst ra.
    rewrite E, firstn_app, <- Hd, length_firstn.
    replace (k - Nat.min k (length names))%nat with O by lia.
    rewrite firstn_all2 by (rewrite <- Hd, length_firstn; lia).
    cbn [firstn]; apply app_nil_r.
  - rewrite !firstn_all2 by lia; reflexivity.
Qed.

Lemma main_sheet_names_resolved (w : World) (args : Args) :
  exists planned,
    map fst (written_sheets (fst (main w args)))
    = uniquify_and_truncate planned MAX_SHEETNAME_LEN.
Proof.
  destruct (main_written_sheets w args) as (k & ->).
  destruct (isdir w (abspath w (input_folder args)));
    [|exists []; destruct k; reflexivity].
  destruct (snd (collect_tables w (abspath w (input_folder args))))
    as [r|e] eqn:E; [|exists []; destruct k; reflexivity].
  pose proof (collect_tables_lengths w _ r E) as L.
  rewrite handed_combine by exact L.
  rewrite <- firstn_map.
  rewrite map_fst_combine by (rewrite length_map; symmetry; exact L).
  rewrite collect_tables_result in E.
  destruct (list_input_files w (abspath w (input_folder args)));
    [discriminate|].
  destruct (snd (collect_files w (s :: l) ([], []))) as [acc|e];
    [|discriminate].
  inversion E; subst; exists (firstn k (snd acc)); cbn [snd].
  apply uniquify_and_truncate_firstn.
Qed.

(** X17.  Whatever the folder holds and however the run ends, the sheet
    names handed to the sink are pairwise distinct after lower-casing;
    and when fewer than 10^30 sheets are written each name is non-empty,
    at most 31 characters long and free of the illegal characters. *)
Theorem main_sheet_names (w : World) (args : Args) :
  NoDup (map lower (map fst (written_sheets (fst (main w args)))))
  /\ ((N.of_nat (length (written_sheets (fst (main w args)))) < 10 ^ 30)%N ->
      Forall (valid_name MAX_SHEETNAME_LEN)
        (map fst (written_sheets (fst (main w args))))).
Proof.
  destruct (main_sheet_names_resolved w args) as [planned E].
  destruct (uniquify_fuel_spec MAX_SHEETNAME_LEN planned) as (_ & Hd & Hnd).
  rewrite E; split; [exact Hnd|].
  intros Hb.
  rewrite <- (length_map fst), E in Hb.
  rewrite <- (Forall2_length Hd) in Hb.
  clear - Hd Hb; induction Hd as [|raw c l l' H _ IH]; constructor;
    [eapply derived_from_valid; eassumption | exact IH].
Qed.



(** ** The unused helper *)

Lemma split_char_last (sep : ascii) (s : str) :
  (split_char sep s = [s] /\ ~ In sep s)
  \/ (exists head,
        s = head ++ sep :: last (split_char sep s) []
        /\ ~ In sep (last (split_char sep s) [])
        /\ (1 < length (split_char sep s))%nat).
Proof.
  induction s as [|c t IH]; [left; split; [reflexivity | intros []]|].
  cbn [split_char]; destruct (char_eqb c sep) eqn:E.
  - apply char_eqb_eq in E; subst c; right.
    destruct IH as [[Hs Hn] | (head & Hh & Hn & Hl)].
    + rewrite Hs; exists []; repeat split; simpl; auto.
    + destruct (split_char sep t) as [|p ps] eqn:Es; [simpl in Hl; lia|].
      exists (sep :: head); cbn [last app length].
      split; [f_equal; exact Hh | split; [exact Hn | lia]].
  - assert (Hc : c <> sep)
      by (intros ->; unfold char_eqb in E; rewrite Ascii.eqb_refl in E;
          discriminate).
    destruct IH as [[Hs Hn] | (head & Hh & Hn & Hl)].
    + rewrite Hs; left; split; [reflexivity|].
      intros [Hin | Hin]; [congruence | contradiction].
    + destruct (split_char sep t) as [|p [|q ps]] eqn:Es;
        try (simpl in Hl; lia).
      right; exists (c :: head); cbn [last app length] in *.
      split; [f_equal; exact Hh | split; [exact Hn | lia]].
Qed.

(** X19.  [suffix_after_last_underscore] returns a stem without an
    underscore as it is, and otherwise the part of the stem after its
    last underscore; either way the result holds no underscore and the
    stem ends with it. *)
Theorem suffix_after_last_underscore_spec (stem : str) :
  (~ In "_"%char stem /\ suffix_after_last_underscore stem = stem)
  \/ (exists head,
        stem = head ++ "_"%char :: suffix_after_last_underscore stem
        /\ ~ In "_"%char (suffix_after_last_underscore stem)).
Proof.
  unfold suffix_after_last_underscore.
  destruct (split_char_last "_" stem) as [[Hs Hn] | (head & Hh & Hn & Hl)].
  - left; split; [exact Hn | rewrite Hs; reflexivity].
  - right; exists head.
    destruct (Z.of_nat (length (split_char "_" stem)) >? 1) eqn:E;
      [split; assumption|].
    rewrite Z.gtb_ltb in E; apply Z.ltb_ge in E; lia.
Qed.

(** ** Stems, extensions and ties *)

Lemma find_last_ge (c : ascii) (b : str) (i acc : Z) :
  In c b -> i <= find_last c b i acc.
Proof.
  revert i acc; induction b as [|x t IH]; intros i acc H; [destruct H|].
  simpl; destruct (in_dec ascii_dec c t) as [Hin | Hout].
  - specialize (IH (i + 1) (if char_eqb x c then i else acc) Hin); lia.
  - rewrite find_last_absent by exact Hout.
    destruct H as [-> | H]; [|contradiction].
    unfold char_eqb; rewrite Ascii.eqb_refl; lia.
Qed.

Lemma last_occurrence (c : ascii) (s : str) :
  ~ In c s \/ exists a b, s = a ++ c :: b /\ ~ In c b.
Proof.
  induction s as [|x t IH]; [left; intros []|].
  destruct IH as [Hout | (a & b & -> & Hb)].
  - destruct (ascii_dec x c) as [-> | Hne].
    + right; exists [], t; split; [reflexivity | exact Hout].
    + left; intros [E | Hin]; [congruence | contradiction].
  - right; exists (x :: a), b; split; [reflexivity | exact Hb].
Qed.

Lemma has_non_dot_witness (s : str) :
  has_non_dot s = true -> exists c, In c s /\ c <> "."%char.
Proof.
  induction s as [|x t IH]; [discriminate|]; simpl.
  destruct (char_eqb x ".") eqn:E; simpl.
  - intros H; destruct (IH H) as (c & Hc & Hne); exists c; auto.
  - intros _; exists x; split; [left; reflexivity|].
    intros ->; discriminate.
Qed.

Lemma In_skipn {A : Type} (n : nat) (l : list A) (x : A) :
  In x (skipn n l) -> In x l.
Proof.
  revert l; induction n as [|n IH]; intros [|y l] H; simpl in H; auto.
  right; apply IH, H.
Qed.

Lemma splitext_shape (p : str) :
  splitext p = (p, [])
  \/ exists stem r,
       splitext p = (stem, "."%char :: r)
       /\ p = stem ++ "."%char :: r
       /\ ~ In "."%char r /\ ~ In "/"%char r
       /\ exists c, In c stem /\ c <> "."%char.
Proof.
  unfold splitext.
  destruct (rfind "." p >? rfind "/" p) eqn:Hgt; [|left; reflexivity].
  destruct (has_non_dot
              (slice_from (slice_to p (rfind "." p)) (rfind "/" p + 1)))
    eqn:Hnd; [|left; reflexivity].
  right; apply Z.gtb_lt in Hgt.
  destruct (last_occurrence "." p) as [Hout | (a & b & Ep & Hb)].
  { rewrite (rfind_absent _ _ Hout) in Hgt.
    unfold rfind in Hgt.
    assert (-1 <= find_last "/" p 0 (-1)).
    { destruct (in_dec ascii_dec "/"%char p) as [Hin | Hno];
        [pose proof (find_last_ge _ _ 0 (-1) Hin); lia|].
      rewrite find_last_absent by exact Hno; lia. }
    lia. }
  subst p; rewrite (rfind_after _ a b Hb) in *.
  rewrite slice_to_exact in * by reflexivity.
  exists a, b; split; [|split; [reflexivity | split; [exact Hb | split]]].
  - f_equal; unfold slice_from, len; rewrite Nat2Z.id.
    rewrite skipn_app, skipn_all, Nat.sub_diag; reflexivity.
  - intros Hin.
    assert (Hin' : In "/"%char ("."%char :: b)) by (right; exact Hin).
    unfold rfind in Hgt; rewrite find_last_app in Hgt.
    pose proof (find_last_ge "/" ("."%char :: b) (0 + len a)
                  (find_last "/" a 0 (-1)) Hin').
    simpl in H, Hgt.
    change (char_eqb "." "/") with false in *.
    pose proof (find_last_ge "/" b (0 + len a + 1)
                  (find_last "/" a 0 (-1)) Hin).
    lia.
  - apply has_non_dot_witness in Hnd; destruct Hnd as (c & Hc & Hne).
    exists c; split; [eapply In_skipn; exact Hc | exact Hne].
Qed.

(** X20.  The stem and the extension [collect_tables] takes from a file
    name put together give the name back.  For a name with a supported
    extension the extension is the last dot and what follows it, and the
    stem holds a character other than a dot, so the name proposed for a
    single-table file is never empty. *)
Theorem stem_of_supported_name (name : str) :
  In (lower (snd (splitext name))) (EXCEL_EXTS ++ CSV_EXTS) ->
  fst (splitext name) ++ snd (splitext name) = name
  /\ (exists r, snd (splitext name) = "."%char :: r
                /\ ~ In "."%char r /\ ~ In "/"%char r)
  /\ (exists c, In c (fst (splitext name)) /\ c <> "."%char)
  /\ fst (splitext name) <> [].
Proof.
  intros H.
  destruct (splitext_shape name) as [E | (stem & r & E & Ep & Hd & Hs & Hc)].
  - rewrite E in H; simpl in H; intuition discriminate.
  - rewrite E; cbn [fst snd]; split; [symmetry; exact Ep|].
    split; [exists r; auto|]; split; [exact Hc|].
    destruct Hc as (c & Hin & _); intros ->; destruct Hin.
Qed.

Lemma stem_of_supported_name_witness :
  In (lower (snd (splitext (lit "Q1.report.XLSX")))) (EXCEL_EXTS ++ CSV_EXTS)
  /\ fst (splitext (lit "Q1.report.XLSX"))
     ++ snd (splitext (lit "Q1.report.XLSX")) = lit "Q1.report.XLSX"
  /\ (exists r, snd (splitext (lit "Q1.report.XLSX")) = "."%char :: r
                /\ ~ In "."%char r /\ ~ In "/"%char r)
  /\ (exists c, In c (fst (splitext (lit "Q1.report.XLSX")))
                /\ c <> "."%char)
  /\ fst (splitext (lit "Q1.report.XLSX")) <> [].
Proof.
  assert (H : In (lower (snd (splitext (lit "Q1.report.XLSX"))))
                (EXCEL_EXTS ++ CSV_EXTS)) by (left; reflexivity).
  split; [exact H|].
  exact (stem_of_supported_name (lit "Q1.report.XLSX") H).
Defined.

Lemma str_leb_same (a : str) : str_leb a a = true.
Proof.
  induction a as [|x a IH]; simpl; [reflexivity|].
  rewrite N.ltb_irrefl; exact IH.
Qed.

Lemma insert_by_filter (key : str -> str) (k x : str) (l : list str) :
  filter (fun p => str_eqb (key p) k) (insert_by key x l)
  = filter (fun p => str_eqb (key p) k) (x :: l).
Proof.
  induction l as [|y l IH]; [reflexivity|].
  cbn [insert_by]; destruct (str_leb (key x) (key y)) eqn:E; [reflexivity|].
  cbn [filter] in *; rewrite IH.
  destruct (str_eqb (key x) k) eqn:Ex; [|reflexivity].
  destruct (str_eqb (key y) k) eqn:Ey; [|reflexivity].
  apply str_eqb_eq in Ex, Ey; rewrite Ex, Ey, str_leb_same in E.
  discriminate.
Qed.

Lemma sort_by_filter (key : str -> str) (k : str) (l : list str) :
  filter (fun p => str_eqb (key p) k) (sort_by key l)
  = filter (fun p => str_eqb (key p) k) l.
Proof.
  induction l as [|x l IH]; [reflexivity|].
  cbn [sort_by]; rewrite insert_by_filter; cbn [filter]; rewrite IH.
  reflexivity.
Qed.

(** X21.  Ties keep the listing order: among the files [list_input_files]
    returns, those with one and the same lower-cased basename come in the
    order in which the directory listed them. *)
Theorem list_input_files_ties_in_listing_order (w : World)
    (folder key : str) :
  filter (fun p => str_eqb (sort_key p) key) (list_input_files w folder)
  = filter (fun p => str_eqb (sort_key p) key)
      (map (path_join folder)
         (filter (selected w folder) (listdir w folder))).
Proof. rewrite list_input_files_filter; apply sort_by_filter. Qed.

Lemma main_sheet_names_witness :
  let frame := mkDataFrame [(lit "c", [CellInt 1])] in
  let w := mkWorld (fun p => p) (fun _ => true)
             (fun _ => [lit "b.csv"; lit "A.xlsx"])
             (fun _ => true)
             (fun _ _ => Ok frame)
             (fun _ => Ok [lit "b"; lit "B"])
             (fun _ _ => Ok frame) in
  let args := mkArgs (lit "/d") (lit "out.xlsx") false in
  map fst (written_sheets (fst (main w args)))
  = [lit "b"; lit "B_1"; lit "b_2"]
  /\ NoDup (map lower (map fst (written_sheets (fst (main w args)))))
  /\ Forall (valid_name MAX_SHEETNAME_LEN)
       (map fst (written_sheets (fst (main w args)))).
Proof.
  intros frame w args.
  destruct (main_sheet_names w args) as [A B].
  split; [reflexivity | split; [exact A | apply B; reflexivity]].
Defined.
